(** * agno-agents: the two notebooks, embedded and checked

    The repository holds two notebooks.

    - The SQL notebook creates [example.db] (two tables, five fixture rows)
      and asks an agent two questions about it.  Module [Sqlite] embeds
      the setup cell statement by statement, the two SQL queries the
      notebook documents, and the answers the notebook recorded.
    - The knowledge notebook builds an agent over a PDF knowledge base and
      a web-search tool, loads the knowledge base and asks two questions,
      the second one under a [try]/[except] that retries on a second agent
      without markdown.  Module [Notebook] embeds these cells over a store
      of Python objects (identity matters for the shared knowledge base)
      and a log of the calls made into the framework; the framework itself
      is a parameter.
    - The agent loop, the tool dispatcher and [ensure_loaded] are not in
      the repository (the notebooks only call the framework that contains
      them).  Module [AgentLoop] models them from the specification. *)

From Stdlib Require Import ZArith String Ascii List Floats Uint63.
From stdpp Require Import base option list strings gmap.
Import ListNotations.
Open Scope string_scope.

(* ===================================================================== *)
(** ** The SQL notebook                                                   *)
(* ===================================================================== *)

Module Sqlite.

(** *** Values, tables, databases *)

(** A stored SQLite value.  The notebook writes integers, text and decimal
    literals; SQLite keeps a decimal literal with a fractional part as an
    8-byte IEEE float, also in a [NUMERIC(10, 2)] column. *)
Inductive value : Type :=
| VNull
| VInt (n : Z)
| VText (s : string)
| VReal (x : float).

(** The double SQLite stores for the decimal literal [digits * 10^-scale]:
    the digit string is read as an integer and divided by the power of
    ten. *)
Definition real_literal (digits : Z) (scale : nat) : float :=
  (PrimFloat.of_uint63 (Uint63.of_Z digits)
   / PrimFloat.of_uint63 (Uint63.of_Z (10 ^ Z.of_nat scale)))%float.

Inductive affinity : Type := INTEGER | TEXT | NUMERIC.

Record column : Type := Column {
  col_name : string;
  col_type : affinity;
  col_pk : bool;                          (* PRIMARY KEY AUTOINCREMENT *)
  col_ref : option (string * string)      (* FOREIGN KEY ... REFERENCES t(c) *)
}.

Definition row : Type := list value.

Record table : Type := Table {
  tbl_columns : list column;
  tbl_rows : list row
}.

(** The database file: its tables by name. *)
Abbreviation database := (gmap string table).

(** SQL [=] on stored values: [NULL] equals nothing, numbers compare by
    value. *)
Definition sql_eq (a b : value) : bool :=
  match a, b with
  | VInt x, VInt y => Z.eqb x y
  | VText s, VText t => String.eqb s t
  | VReal x, VReal y => PrimFloat.eqb x y
  | VInt x, VReal y | VReal y, VInt x =>
      PrimFloat.eqb (PrimFloat.of_uint63 (Uint63.of_Z x)) y
  | _, _ => false
  end.

Fixpoint index_of (c : string) (cols : list string) : option nat :=
  match cols with
  | [] => None
  | c' :: rest => if String.eqb c c' then Some 0 else S <$> index_of c rest
  end.

Definition column_index (t : table) (c : string) : option nat :=
  index_of c (map col_name (tbl_columns t)).

Definition cell (r : row) (i : nat) : value := default VNull (r !! i).

(** *** Statements of the setup cell *)

Inductive statement : Type :=
| PragmaForeignKeys (on : bool)
| CreateTableIfNotExists (name : string) (cols : list column)
| InsertInto (name : string) (cols : list string) (vals : list value).

(** The exceptions the driver raises. *)
Inductive db_error : Type :=
| NoSuchTable (name : string)              (* OperationalError *)
| NoSuchColumn (name col : string)         (* OperationalError *)
| ValueCount (values columns : nat)        (* OperationalError: n values for m columns *)
| DatatypeMismatch                         (* IntegrityError *)
| UniqueFailed (name col : string)         (* IntegrityError: UNIQUE constraint failed: name.col *)
| ForeignKeyFailed.                        (* IntegrityError: FOREIGN KEY constraint failed *)

(** One connection: the tables as this connection sees them, the foreign
    key switch, whether a transaction is open, and what is durable in the
    file (what a later connection finds).  The driver opens a transaction
    before an [INSERT], not before a [CREATE TABLE]; [commit] makes the
    connection's view durable; leaving the [with] block by an exception
    discards what was not committed. *)
Record connection : Type := Connection {
  conn_db : database;
  conn_fk : bool;
  conn_txn : bool;
  conn_durable : database
}.

Definition connect (file : database) : connection :=
  Connection file false false file.

Inductive result (A : Type) : Type :=
| Ok (a : A)
| Raise (e : db_error).
Arguments Ok {A} a.
Arguments Raise {A} e.

#[global] Instance result_ret : MRet result := fun A a => Ok a.

#[global] Instance result_bind : MBind result := fun A B k m =>
  match m with
  | Ok a => k a
  | Raise e => Raise e
  end.

Definition require (b : bool) (e : db_error) : result unit :=
  if b then Ok tt else Raise e.

Fixpoint assoc (c : string) (cols : list string) (vals : list value)
  : option value :=
  match cols, vals with
  | c' :: cols', v :: vals' =>
      if String.eqb c c' then Some v else assoc c cols' vals'
  | _, _ => None
  end.

(** The new row in the table's column order; a column the statement does
    not name is [NULL]. *)
Definition build_row (tcols : list column) (cols : list string)
    (vals : list value) : row :=
  map (fun c => default VNull (assoc (col_name c) cols vals)) tcols.

Definition max_rowid (i : nat) (rows : list row) : Z :=
  fold_right (fun r acc => match cell r i with
                           | VInt n => Z.max n acc
                           | _ => acc
                           end) 0%Z rows.

(** The primary key: a [NULL] key takes the next rowid, a key that is not
    an integer is refused, a key that is stored already violates
    uniqueness. *)
Fixpoint check_primary_key (name : string) (tcols : list column) (i : nat)
    (rows : list row) (r : row) : result row :=
  match tcols with
  | [] => Ok r
  | c :: rest =>
      if col_pk c then
        match cell r i with
        | VNull => Ok (<[i := VInt (max_rowid i rows + 1)]> r)
        | VInt n =>
            if existsb (fun r' => sql_eq (cell r' i) (VInt n)) rows
            then Raise (UniqueFailed name (col_name c))
            else Ok r
        | _ => Raise DatatypeMismatch
        end
      else check_primary_key name rest (S i) rows r
  end.

(** The foreign keys of the new row, checked when the switch is on. *)
Fixpoint check_foreign_keys (db : database) (tcols : list column) (i : nat)
    (r : row) : result unit :=
  match tcols with
  | [] => Ok tt
  | c :: rest =>
      _ ← match col_ref c, cell r i with
            | Some _, VNull | None, _ => Ok tt
            | Some (pt, pc), v =>
                match db !! pt with
                | None => Raise (NoSuchTable pt)
                | Some parent =>
                    match column_index parent pc with
                    | None => Raise (NoSuchColumn pt pc)
                    | Some j =>
                        require (existsb (fun r' => sql_eq (cell r' j) v)
                                         (tbl_rows parent))
                                ForeignKeyFailed
                    end
                end
            end;
      check_foreign_keys db rest (S i) r
  end.

Fixpoint first_unknown (tcols : list string) (cols : list string)
  : option string :=
  match cols with
  | [] => None
  | c :: rest =>
      if existsb (String.eqb c) tcols then first_unknown tcols rest
      else Some c
  end.

Definition execute (s : statement) (k : connection) : result connection :=
  match s with
  | PragmaForeignKeys on =>
      Ok (Connection (conn_db k) on (conn_txn k) (conn_durable k))
  | CreateTableIfNotExists name cols =>
      match conn_db k !! name with
      | Some _ => Ok k
      | None =>
          let t := Table cols [] in
          Ok (Connection (<[name := t]> (conn_db k)) (conn_fk k) (conn_txn k)
                (if conn_txn k then conn_durable k
                 else <[name := t]> (conn_durable k)))
      end
  | InsertInto name cols vals =>
      match conn_db k !! name with
      | None => Raise (NoSuchTable name)
      | Some t =>
          _ ← match first_unknown (map col_name (tbl_columns t)) cols with
                | Some c => Raise (NoSuchColumn name c)
                | None => Ok tt
                end;
          _ ← require (Nat.eqb (length vals) (length cols))
                      (ValueCount (length vals) (length cols));
          r ← check_primary_key name (tbl_columns t) 0 (tbl_rows t)
                  (build_row (tbl_columns t) cols vals);
          _ ← (if conn_fk k
                 then check_foreign_keys (conn_db k) (tbl_columns t) 0 r
                 else Ok tt);
          Ok (Connection
                (<[name := Table (tbl_columns t) (tbl_rows t ++ [r])]> (conn_db k))
                (conn_fk k) true (conn_durable k))
      end
  end.

Definition commit (k : connection) : connection :=
  Connection (conn_db k) (conn_fk k) false (conn_db k).

(** *** The setup cell *)

Definition customers_columns : list column :=
  [ Column "id" INTEGER true None;
    Column "name" TEXT false None;
    Column "email" TEXT false None ].

Definition orders_columns : list column :=
  [ Column "id" INTEGER true None;
    Column "customer_id" INTEGER false (Some ("customers", "id"));
    Column "product" TEXT false None;
    Column "amount" NUMERIC false None ].

Definition setup_statements : list statement :=
  [ PragmaForeignKeys true;
    CreateTableIfNotExists "customers" customers_columns;
    CreateTableIfNotExists "orders" orders_columns;
    InsertInto "customers" ["id"; "name"; "email"]
      [VInt 1; VText "John Doe"; VText "john@example.com"];
    InsertInto "customers" ["id"; "name"; "email"]
      [VInt 2; VText "Jane Smith"; VText "jane@example.com"];
    InsertInto "orders" ["id"; "customer_id"; "product"; "amount"]
      [VInt 1; VInt 1; VText "Laptop"; VReal (real_literal 99999 2)];
    InsertInto "orders" ["id"; "customer_id"; "product"; "amount"]
      [VInt 2; VInt 1; VText "Mouse"; VReal (real_literal 1999 2)];
    InsertInto "orders" ["id"; "customer_id"; "product"; "amount"]
      [VInt 3; VInt 2; VText "Keyboard"; VReal (real_literal 4999 2)] ].

(** The statements in order; the first exception stops the block.  The
    connection at the raise is kept for inspection. *)
Fixpoint execute_all (ss : list statement) (k : connection)
  : connection * option db_error :=
  match ss with
  | [] => (k, None)
  | s :: rest =>
      match execute s k with
      | Ok k' => execute_all rest k'
      | Raise e => (k, Some e)
      end
  end.

Inductive cell_outcome : Type :=
| Finished
| Raised (e : db_error).

(** The whole cell on a database file: connect, run the statements,
    commit; the file afterwards and how the cell ended. *)
Definition setup (file : database) : database * cell_outcome :=
  match execute_all setup_statements (connect file) with
  | (k, None) => (conn_durable (commit k), Finished)
  | (k, Some e) => (conn_durable k, Raised e)
  end.

(** *** The two queries the notebook documents *)

(** Rows with columns qualified by the table name or alias they come
    from. *)
Record rowset : Type := Rowset {
  rs_columns : list (string * string);
  rs_rows : list row
}.

Definition from_table (db : database) (name alias : string) : option rowset :=
  t ← db !! name;
  Some (Rowset (map (fun c => (alias, col_name c)) (tbl_columns t)) (tbl_rows t)).

Fixpoint qualified_index (q : string * string) (cols : list (string * string))
  : option nat :=
  match cols with
  | [] => None
  | (a, c) :: rest =>
      if String.eqb (fst q) a && String.eqb (snd q) c then Some 0
      else S <$> qualified_index q rest
  end.

(** [l JOIN r ON lc = rc]: for every row of [l] in order, the rows of [r]
    in order that agree with it on the two columns. *)
Definition join (l r : rowset) (lc rc : string * string) : option rowset :=
  i ← qualified_index lc (rs_columns l);
  j ← qualified_index rc (rs_columns r);
  Some (Rowset (rs_columns l ++ rs_columns r)%list
          (flat_map (fun a =>
             flat_map (fun b => if sql_eq (cell a i) (cell b j)
                                then [(a ++ b)%list] else [])
                      (rs_rows r))
             (rs_rows l))).


Definition to_real (v : value) : float :=
  match v with
  | VInt n => PrimFloat.of_uint63 (Uint63.of_Z n)
  | VReal x => x
  | _ => 0%float
  end.

Definition is_null (v : value) : bool :=
  match v with VNull => true | _ => false end.

Definition is_int (v : value) : bool :=
  match v with VInt _ => true | _ => false end.

(** [SUM]: [NULL]s are skipped; integers add as integers; as soon as one
    value is not an integer the sum is the running double, from [0.0], in
    row order. *)
Definition sql_sum (vs : list value) : value :=
  let xs := List.filter (fun v => negb (is_null v)) vs in
  match xs with
  | [] => VNull
  | _ =>
      if forallb is_int xs
      then VInt (fold_left (fun acc v => match v with
                                         | VInt n => (acc + n)%Z
                                         | _ => acc
                                         end) xs 0%Z)
      else VReal (fold_left (fun acc v => (acc + to_real v)%float) xs 0%float)
  end.

(** [GROUP BY] treats two [NULL]s as one group. *)
Definition same_group (a b : value) : bool :=
  match a, b with
  | VNull, VNull => true
  | _, _ => sql_eq a b
  end.

Fixpoint add_to_group (k v : value) (groups : list (value * list value))
  : list (value * list value) :=
  match groups with
  | [] => [(k, [v])]
  | (k', vs) :: rest =>
      if same_group k k' then (k', (vs ++ [v])%list) :: rest
      else (k', vs) :: add_to_group k v rest
  end.

(** [SELECT key, SUM(col) ... GROUP BY key]: one row per key, the values
    of a group summed in row order.  SQL leaves the order of the groups
    open; here they come in order of first appearance. *)
Definition group_sum (r : rowset) (key col : string * string)
  : option (list (value * value)) :=
  i ← qualified_index key (rs_columns r);
  j ← qualified_index col (rs_columns r);
  Some (map (fun g => (fst g, sql_sum (snd g)))
            (fold_left (fun groups a => add_to_group (cell a i) (cell a j) groups)
                       (rs_rows r) [])).

(** [SELECT c.name, SUM(o.amount) FROM customers c JOIN orders o
     ON c.id = o.customer_id GROUP BY c.name] *)
Definition total_spent (db : database) : option (list (value * value)) :=
  c ← from_table db "customers" "c";
  o ← from_table db "orders" "o";
  j ← join c o ("c", "id") ("o", "customer_id");
  group_sum j ("c", "name") ("o", "amount").


(** *** The answers recorded in the notebook *)





















(** *** The fixture, as the five [INSERT] statements write it *)

Definition fixture_customers : table :=
  Table customers_columns
    [ [VInt 1; VText "John Doe"; VText "john@example.com"];
      [VInt 2; VText "Jane Smith"; VText "jane@example.com"] ].

Definition fixture_orders : table :=
  Table orders_columns
    [ [VInt 1; VInt 1; VText "Laptop"; VReal (real_literal 99999 2)];
      [VInt 2; VInt 1; VText "Mouse"; VReal (real_literal 1999 2)];
      [VInt 3; VInt 2; VText "Keyboard"; VReal (real_literal 4999 2)] ].

(** A database file with the two fixture tables in it. *)
Definition with_fixture (file : database) : database :=
  <["orders" := fixture_orders]> (<["customers" := fixture_customers]> file).

(** [example.db] after the setup cell has run once on a new file. *)
Definition fixture : database := with_fixture ∅.

End Sqlite.

(* ===================================================================== *)
(** ** The knowledge notebook                                             *)
(* ===================================================================== *)

Module Notebook.

(** *** Python objects and the calls into the framework *)

(** A reference to an object on the Python heap.  Two names are the same
    object exactly when they hold the same reference. *)
Definition ref : Type := nat.

Inductive search_type : Type := vector | keyword | hybrid.

(** The objects the cells construct, with the arguments they are given. *)
Inductive object : Type :=
| OpenAIChat (id : string)
| OpenAIEmbedder (id : string)
| LanceDb (uri table_name : string) (search : search_type) (embedder : ref)
| PDFUrlKnowledgeBase (urls : list string) (vector_db : ref)
| DuckDuckGoTools
| Agent (model : ref) (description : string) (instructions : list string)
        (knowledge : option ref) (tools : list ref)
        (show_tool_calls markdown : bool).

(** What the cells ask of the outside, in order. *)
Inductive event : Type :=
| LoadKnowledge (kb : ref)                                         (* kb.load() *)
| PrintResponse (agent : ref) (message : string) (stream : bool)
| PrintLine (text : string).

(** A raised exception: an instance of [Exception], which
    [except Exception] catches, or of another [BaseException] class
    ([KeyboardInterrupt], [SystemExit]), which it lets through. *)
Inductive exn : Type :=
| Exception (cls : string)
| BaseException (cls : string).

Record world : Type := World {
  heap : list object;
  log : list event
}.

(** The framework, which is not part of the repository: whether a call
    returns ([None]) or raises, given the objects and everything that
    happened before the call.  The cells never hand it a way to rebind
    their variables, and the model lets it leave the constructor arguments
    of the objects as given. *)
Record framework : Type := Framework {
  fw_load : world -> ref -> option exn;
  fw_print_response : world -> ref -> string -> bool -> option exn
}.

(** Cell code: runs on the world, returns a value or raises. *)
Definition M (A : Type) : Type := world -> world * (A + exn).

#[global] Instance M_ret : MRet M := fun A a w => (w, inl a).

#[global] Instance M_bind : MBind M := fun A B k m w =>
  match m w with
  | (w', inl a) => k a w'
  | (w', inr e) => (w', inr e)
  end.

Definition raise {A} (e : exn) : M A := fun w => (w, inr e).

(** [try: body  except Exception as e: handler] *)
Definition try_except {A} (body : M A) (handler : exn -> M A) : M A :=
  fun w =>
    match body w with
    | (w', inr (Exception cls)) => handler (Exception cls) w'
    | other => other
    end.

(** Constructing an object puts it at a new address. *)
Definition new (o : object) : M ref :=
  fun w => (World (heap w ++ [o]) (log w), inl (length (heap w))).

(** The world with one more entry in the log. *)
Definition logged (ev : event) (w : world) : world :=
  World (heap w) (log w ++ [ev]).

Definition emit (ev : event) : M unit :=
  fun w => (logged ev w, inl tt).

(** [a.knowledge] *)
Definition get_knowledge (a : ref) : M (option ref) :=
  fun w =>
    match heap w !! a with
    | Some (Agent _ _ _ k _ _ _) => (w, inl k)
    | _ => (w, inr (Exception "AttributeError"))
    end.

(** A framework call as the cell sees it: it returns or it raises. *)
Definition outcome (o : option exn) : unit + exn :=
  match o with
  | None => inl tt
  | Some e => inr e
  end.

(** [kb.load()] *)
Definition load (fw : framework) (kb : ref) : M unit :=
  fun w => (logged (LoadKnowledge kb) w, outcome (fw_load fw w kb)).

(** [a.print_response(message, stream=stream)] *)
Definition print_response (fw : framework) (a : ref) (message : string)
    (stream : bool) : M unit :=
  fun w => (logged (PrintResponse a message stream) w,
            outcome (fw_print_response fw w a message stream)).

(** *** The cells *)

Definition model_id : string := "gpt-4o-mini".
Definition description_text : string := "You are a Thai cuisine expert!".
Definition instruction_lines : list string :=
  [ "Search your knowledge base for Thai recipes.";
    "If the question is better suited for the web, search the web to fill in gaps.";
    "Prefer the information in your knowledge base over the web results." ].
Definition recipes_url : string :=
  "https://agno-public.s3.amazonaws.com/recipes/ThaiRecipes.pdf".
Definition first_message : string :=
  "How do I make chicken and galangal in coconut milk soup".
Definition second_message : string := "What is the history of Thai curry?".
Definition retry_notice : string :=
  String "010" "Encountered an error with markdown formatting. Retrying without markdown..."
  ++ String "010" "".

(** Cell [8c02f089]: [agent = Agent(...)], arguments evaluated left to
    right, inner calls first. *)
Definition build_agent : M ref :=
  m ← new (OpenAIChat model_id);
  e ← new (OpenAIEmbedder "text-embedding-3-small");
  v ← new (LanceDb "tmp/lancedb" "recipes" hybrid e);
  k ← new (PDFUrlKnowledgeBase [recipes_url] v);
  t ← new DuckDuckGoTools;
  new (Agent m description_text instruction_lines (Some k) [t] true true).

(** Cell [021d96a0], first statement:
    [if agent.knowledge is not None: agent.knowledge.load()] *)
Definition load_knowledge (fw : framework) (agent : ref) : M unit :=
  k ← get_knowledge agent;
  match k with
  | None => mret tt
  | Some _ =>
      k' ← get_knowledge agent;
      match k' with
      | Some kb => load fw kb
      | None => raise (Exception "AttributeError")
      end
  end.

(** Second statement: the first query, outside any [try]. *)
Definition first_query (fw : framework) (agent : ref) : M unit :=
  print_response fw agent first_message true.

(** The handler of the [except] clause: print the notice, build
    [temp_agent], ask again. *)
Definition retry_without_markdown (fw : framework) (agent : ref) : M unit :=
  _ ← emit (PrintLine retry_notice);
  m ← new (OpenAIChat model_id);
  k ← get_knowledge agent;
  t ← new DuckDuckGoTools;
  temp_agent ← new (Agent m description_text instruction_lines k [t] true false);
  print_response fw temp_agent second_message true.

(** Third statement: the second query under [try]/[except Exception]. *)
Definition second_query (fw : framework) (agent : ref) : M unit :=
  try_except (print_response fw agent second_message true)
             (fun _ => retry_without_markdown fw agent).

Definition load_and_ask (fw : framework) (agent : ref) : M unit :=
  _ ← load_knowledge fw agent;
  _ ← first_query fw agent;
  second_query fw agent.

(** The notebook from a fresh kernel. *)
Definition notebook (fw : framework) : world * (unit + exn) :=
  (agent ← build_agent; load_and_ask fw agent) (World [] []).

(** The address [agent] is bound to. *)
Definition agent_ref : ref := 5.

(** *** Comparing two agents *)

Definition deref (h : list object) (r : ref) : option object := h !! r.

Definition object_eqb (a b : object) : bool :=
  match a, b with
  | OpenAIChat x, OpenAIChat y => String.eqb x y
  | OpenAIEmbedder x, OpenAIEmbedder y => String.eqb x y
  | DuckDuckGoTools, DuckDuckGoTools => true
  | _, _ => false
  end.

Definition same_object_value (h : list object) (r1 r2 : ref) : bool :=
  match deref h r1, deref h r2 with
  | Some a, Some b => object_eqb a b
  | _, _ => false
  end.

Fixpoint same_tools (h : list object) (ts1 ts2 : list ref) : bool :=
  match ts1, ts2 with
  | [], [] => true
  | t1 :: r1, t2 :: r2 => same_object_value h t1 t2 && same_tools h r1 r2
  | _, _ => false
  end.

(** [b] is configured as [a] is, with markdown switched from on to off:
    a model with the same id, the same description and instructions, the
    same tools, the same tool-call visibility, and the knowledge base of
    [a] itself (the same reference, not a copy). *)
Definition fallback_of (h : list object) (a b : ref) : bool :=
  match deref h a, deref h b with
  | Some (Agent m1 d1 i1 k1 t1 s1 md1), Some (Agent m2 d2 i2 k2 t2 s2 md2) =>
      same_object_value h m1 m2
      && String.eqb d1 d2
      && bool_decide (i1 = i2)
      && bool_decide (k1 = k2)
      && same_tools h t1 t2
      && Bool.eqb s1 s2
      && md1 && negb md2
  | _, _ => false
  end.

(** [a.knowledge], when [a] is an agent that has one. *)
Definition knowledge_of (h : list object) (a : ref) : option ref :=
  match deref h a with
  | Some (Agent _ _ _ k _ _ _) => k
  | _ => None
  end.

Definition is_load (ev : event) : bool :=
  match ev with LoadKnowledge _ => true | _ => false end.

Definition loads (l : list event) : list event := List.filter is_load l.

Definition is_knowledge_base (o : object) : bool :=
  match o with PDFUrlKnowledgeBase _ _ => true | _ => false end.

(** The calls of [print_response] with a given message. *)
Definition asks (message : string) (l : list event) : list event :=
  List.filter (fun ev => match ev with
                         | PrintResponse _ m _ => String.eqb m message
                         | _ => false
                         end) l.

(** The world in which [temp_agent] exists: a new model object, a new
    tools object and the agent itself, at the next three addresses. *)
Definition temp_agent_ref (w : world) : ref := S (S (length (heap w))).

Definition with_temp_agent (k : option ref) (w : world) : world :=
  World (heap w ++ [ OpenAIChat model_id; DuckDuckGoTools;
                     Agent (length (heap w)) description_text
                           instruction_lines k [S (length (heap w))]
                           true false ])%list
        (log w).

(** The world after cell [8c02f089]. *)
Definition built : world := fst (build_agent (World [] [])).

(** Two frameworks to run the cells against.  With the first, markdown
    rendering of the second answer fails and the service is unreachable
    when the query is sent again; with the second, the service is
    unreachable from the start. *)
Definition is_markdown_agent (w : world) (a : ref) : bool :=
  match heap w !! a with
  | Some (Agent _ _ _ _ _ _ md) => md
  | _ => false
  end.

Definition fw_markdown_then_down : framework :=
  Framework (fun _ _ => None)
    (fun w a message _ =>
       if is_markdown_agent w a
       then if String.eqb message second_message
            then Some (Exception "OutputFormatError")
            else None
       else Some (Exception "APIConnectionError")).

Definition fw_down : framework :=
  Framework (fun _ _ => None)
    (fun _ _ _ _ => Some (Exception "APIConnectionError")).

(** A framework whose markdown rendering of the second answer fails and
    whose plain rendering works. *)
Definition fw_markdown_fails : framework :=
  Framework (fun _ _ => None)
    (fun w a message _ =>
       if is_markdown_agent w a && String.eqb message second_message
       then Some (Exception "OutputFormatError")
       else None).

End Notebook.

(* ===================================================================== *)
(** ** The agent loop of the specification                                *)
(* ===================================================================== *)

(** The notebooks call [agent.run] and [agent.print_response]; the loop
    behind these calls, the tool dispatcher and [ensure_loaded] are not
    among the repository's files.  This module models them from sections
    3 to 7 of the specification. *)
Module AgentLoop.

#[local] Open Scope nat_scope.
#[local] Open Scope list_scope.

(** Modelled from the spec: the error taxonomy of section 7 (with
    [MissingCredential] of section 9); no source file declares it. *)
Inductive ErrorKind : Type :=
| InvalidArguments
| UnknownTool
| ToolExecutionFailed
| UpstreamUnavailable
| StepBudgetExceeded
| OutputFormatError
| MissingCredential.

(** Modelled from the spec: the Run State of section 3. *)
Inductive RunState : Type :=
| pending
| awaiting_tool_result
| completed
| failed.

Inductive arg_type : Type := TString | TInt | TBool.

Inductive arg_value : Type :=
| AString (s : string)
| AInt (n : Z)
| ABool (b : bool).

Definition type_of (v : arg_value) : arg_type :=
  match v with
  | AString _ => TString
  | AInt _ => TInt
  | ABool _ => TBool
  end.

Definition arg_type_eqb (a b : arg_type) : bool :=
  match a, b with
  | TString, TString | TInt, TInt | TBool, TBool => true
  | _, _ => false
  end.

(** Modelled from the spec: one proposed tool invocation, a tool name and
    named arguments (section 6, [{tool_name, arguments}]). *)
Record Invocation : Type := Invoke {
  tool_name : string;
  arguments : list (string * arg_value)
}.

(** Modelled from the spec: what a dispatched invocation yields,
    [ToolResult | ToolError] (section 4.2). *)
Inductive ToolOutcome : Type :=
| ToolResult (payload : list string)
| ToolError (kind : ErrorKind) (reason : string).

(** Modelled from the spec: a Turn of the transcript (section 3): a model
    proposal, which is a final answer or a list of invocations, or a tool
    result fed back to the model. *)
Inductive Turn : Type :=
| FinalAnswerTurn (text : string)
| ProposalTurn (calls : list Invocation)
| ToolResultTurn (call : Invocation) (outcome : ToolOutcome).

Definition Transcript : Type := list Turn.

(** Modelled from the spec: a Tool Descriptor (section 3).  The capability
    gets validated arguments and the number of the attempt, and produces a
    result or fails with a described reason. *)
Record ToolDescriptor : Type := Tool {
  tool_description : string;
  tool_schema : list (string * arg_type);
  capability : list (string * arg_value) -> nat -> list string + string
}.

Fixpoint argument (name : string) (args : list (string * arg_value))
  : option arg_value :=
  match args with
  | [] => None
  | (n, v) :: rest => if String.eqb name n then Some v else argument name rest
  end.

(** Modelled from the spec: arguments that satisfy the declared schema
    (section 4.1, step 3): every declared parameter is given with a value
    of its type, and nothing else is given. *)
Definition satisfies (schema : list (string * arg_type))
    (args : list (string * arg_value)) : bool :=
  Nat.eqb (length args) (length schema)
  && forallb (fun p => match argument (fst p) args with
                       | Some v => arg_type_eqb (type_of v) (snd p)
                       | None => false
                       end) schema.

(** Modelled from the spec: [dispatch(name, args)] of section 4.2.  An
    unknown name and arguments that violate the schema are rejected
    without invoking the capability; a failing capability is tried once
    more before its failure is surfaced (section 7). *)
Definition dispatch (registry : gmap string ToolDescriptor) (call : Invocation)
  : ToolOutcome :=
  match registry !! tool_name call with
  | None => ToolError UnknownTool (tool_name call)
  | Some tool =>
      if satisfies (tool_schema tool) (arguments call) then
        match capability tool (arguments call) 0 with
        | inl payload => ToolResult payload
        | inr _ =>
            match capability tool (arguments call) 1 with
            | inl payload => ToolResult payload
            | inr reason => ToolError ToolExecutionFailed reason
            end
        end
      else ToolError InvalidArguments (tool_name call)
  end.

(** Modelled from the spec: the text-generation service contract of
    section 6: from instruction, transcript and tool schemas to a final
    answer or tool calls; the service may also be unreachable. *)
Inductive ModelResponse : Type :=
| final_answer (text : string)
| tool_calls (calls : list Invocation)
| unavailable.

Record ModelRequest : Type := Ask {
  ask_instruction : string;
  ask_transcript : Transcript;
  ask_schemas : list (string * list (string * arg_type))
}.

(** Modelled from the spec: the configuration a run is started with: the
    registered tools, the service, the step budget, and the order in which
    the concurrent executions of one step complete (the positions of the
    step's invocations, first finished first). *)
Record Config : Type := Configure {
  registry : gmap string ToolDescriptor;
  service : ModelRequest -> ModelResponse;
  max_steps : nat;
  completion_order : list Invocation -> list nat
}.

(** Modelled from the spec: the state of one run: the transcript, the Run
    State, the steps taken, the invocations in flight, and the error kind
    once failed. *)
Record Run : Type := MkRun {
  transcript : Transcript;
  state : RunState;
  steps : nat;
  in_flight : list Invocation;
  failure : option ErrorKind
}.

(** Modelled from the spec: a run starts [pending] with an empty
    transcript. *)
Definition start : Run := MkRun [] pending 0 [] None.

Definition fail_with (k : ErrorKind) (r : Run) : Run :=
  MkRun (transcript r) failed (steps r) [] (Some k).

Definition schemas (c : Config) : list (string * list (string * arg_type)) :=
  (fun p => (fst p, tool_schema (snd p))) <$> map_to_list (registry c).

Definition result_turn (c : Config) (call : Invocation) : Turn :=
  ToolResultTurn call (dispatch (registry c) call).

Fixpoint tagged_with {A} (i : nat) (done : list (nat * A)) : option A :=
  match done with
  | [] => None
  | (j, x) :: rest => if Nat.eqb i j then Some x else tagged_with i rest
  end.

(** The executions of a step as they complete: each result turn with the
    position of its invocation in the proposal. *)
Definition completed_executions (c : Config) (calls : list Invocation)
  : list (nat * Turn) :=
  omap (fun i => (fun call => (i, result_turn c call)) <$> calls !! i)
       (completion_order c calls).

(** Modelled from the spec: the join of section 5: wait for all
    executions, then take their results by position in the proposal. *)
Definition in_proposal_order {A} (n : nat) (done : list (nat * A)) : list A :=
  omap (fun i => tagged_with i done) (seq 0 n).

(** Modelled from the spec: step 4 of the algorithm of section 4.1: the
    invocations of a step are executed, they complete in some order, and
    their result turns are appended in invocation order. *)
Definition observe (c : Config) (calls : list Invocation) : list Turn :=
  in_proposal_order (length calls) (completed_executions c calls).

(** Modelled from the spec: the algorithm of section 4.1, one transition
    at a time.  From [pending] the budget is checked and the service is
    asked; a final answer is appended and completes the run; proposed
    invocations are appended and awaited; from [awaiting_tool_result] the
    results are appended and the step is counted.  A completed or failed
    run has no transition. *)
Definition step (c : Config) (instruction : string) (r : Run) : option Run :=
  match state r with
  | completed | failed => None
  | pending =>
      if max_steps c <=? steps r then Some (fail_with StepBudgetExceeded r)
      else
        match service c (Ask instruction (transcript r) (schemas c)) with
        | unavailable => Some (fail_with UpstreamUnavailable r)
        | final_answer text =>
            Some (MkRun (transcript r ++ [FinalAnswerTurn text]) completed
                        (steps r) [] None)
        | tool_calls calls =>
            Some (MkRun (transcript r ++ [ProposalTurn calls])
                        awaiting_tool_result (steps r) calls None)
        end
  | awaiting_tool_result =>
      Some (MkRun (transcript r ++ observe c (in_flight r)) pending
                  (S (steps r)) [] None)
  end.

(** Modelled from the spec: the loop of section 4.1: transitions are
    taken until the run is completed or failed. *)
Fixpoint drive (c : Config) (instruction : string) (fuel : nat) (r : Run)
  : Run :=
  match fuel with
  | 0 => r
  | S fuel' =>
      match step c instruction r with
      | None => r
      | Some r' => drive c instruction fuel' r'
      end
  end.

(** Modelled from the spec: what [run] returns (section 4.1): the final
    answer, or a Failure with its kind and the transcript so far. *)
Inductive RunResult : Type :=
| FinalAnswer (text : string)
| Failure (kind : ErrorKind) (so_far : Transcript).

Definition result_of (r : Run) : option RunResult :=
  match state r, failure r, last (transcript r) with
  | completed, _, Some (FinalAnswerTurn text) => Some (FinalAnswer text)
  | failed, Some k, _ => Some (Failure k (transcript r))
  | _, _, _ => None
  end.

(** Every step takes two transitions (propose, observe) and the run ends
    with one more. *)
Definition enough_fuel (c : Config) : nat := 2 * max_steps c + 1.

Definition final_run (c : Config) (instruction : string) : Run :=
  drive c instruction (enough_fuel c) start.

(** Modelled from the spec: [run(request) -> FinalAnswer | Failure]. *)
Definition run (c : Config) (instruction : string) : option RunResult :=
  result_of (final_run c instruction).

Definition is_proposal (t : Turn) : bool :=
  match t with ProposalTurn _ => true | _ => false end.

Definition is_final (t : Turn) : bool :=
  match t with FinalAnswerTurn _ => true | _ => false end.

(** *** The knowledge index and [ensure_loaded] *)

(** Modelled from the spec: the Knowledge Index (sections 3 and 6) as far
    as [ensure_loaded] needs it: the chunks it holds and whether ingestion has
    been attempted. *)
Record KnowledgeIndex : Type := Index {
  chunks : list string;
  ingestion_attempted : bool
}.

(** Modelled from the spec: [Ready | EmptyIndexWarning] (section 4.3). *)
Inductive GateResult : Type := Ready | EmptyIndexWarning.

(** A source document: unreachable, or the chunks it yields. *)
Definition Document : Type := option (list string).

Definition indexable (documents : list Document) : list string :=
  concat (omap id documents).

(** Modelled from the spec: [ingest(documents) -> count_added]. *)
Definition ingest (documents : list Document) (ix : KnowledgeIndex)
  : nat * KnowledgeIndex :=
  (length (indexable documents),
   Index (chunks ix ++ indexable documents) true).

Definition status (ix : KnowledgeIndex) : GateResult :=
  match chunks ix with
  | [] => EmptyIndexWarning
  | _ => Ready
  end.

(** Modelled from the spec: [ensure_loaded(index)] of section 4.3: one
    ingestion attempt per index; an index left without chunks is reported
    by a warning, not by a failure. *)
Definition ensure_loaded (documents : list Document) (ix : KnowledgeIndex)
  : GateResult * KnowledgeIndex :=
  if ingestion_attempted ix then (status ix, ix)
  else
    let ix' := snd (ingest documents ix) in
    (status ix', ix').

(** Modelled from the spec: [query] of the index contract, with the
    ranking left to the index ([relevant]). *)
Definition query (relevant : string -> string -> bool) (ix : KnowledgeIndex)
    (text : string) : list string :=
  List.filter (relevant text) (chunks ix).

Definition retrieval_name : string := "search_knowledge_base".

(** Modelled from the spec: the retrieval tool over an index: one string
    parameter, the chunks found as result. *)
Definition retrieval_tool (relevant : string -> string -> bool)
    (ix : KnowledgeIndex) : ToolDescriptor :=
  Tool "Search the knowledge index" [("query", TString)]
       (fun args _ =>
          match argument "query" args with
          | Some (AString text) => inl (query relevant ix text)
          | _ => inr "query must be a string"
          end).

(** *** What holds of every state of a run *)

Definition no_final (turns : Transcript) : Prop :=
  Forall (fun t => is_final t = false) turns.

(** A completed run ends in its only final answer; a failed run names its
    error kind, one of the two loop-level kinds; no other run holds a
    final answer. *)
Definition well_formed (r : Run) : Prop :=
  match state r with
  | completed =>
      exists before text,
        transcript r = before ++ [FinalAnswerTurn text] /\ no_final before
  | failed =>
      no_final (transcript r) /\
      exists k, failure r = Some k /\
                (k = StepBudgetExceeded \/ k = UpstreamUnavailable)
  | _ => no_final (transcript r)
  end.

(** The transitions a run can still take. *)
Definition transitions_left (c : Config) (r : Run) : nat :=
  match state r with
  | pending => 2 * (max_steps c - steps r) + 1
  | awaiting_tool_result => 2 * (max_steps c - S (steps r)) + 2
  | _ => 0
  end.

(** What holds of every state of a run whose service only proposes tool
    calls. *)
Definition only_proposals (c : Config) (r : Run) : Prop :=
  steps r <= max_steps c /\
  state r <> completed /\
  (state r = failed ->
     failure r = Some StepBudgetExceeded /\ steps r = max_steps c) /\
  (state r = awaiting_tool_result -> steps r < max_steps c) /\
  length (List.filter is_proposal (transcript r))
  = steps r + (match state r with awaiting_tool_result => 1 | _ => 0 end).

(** *** Configurations to run the loop on *)

Definition echo_tool : ToolDescriptor :=
  Tool "Repeat the text" [("text", TString)]
       (fun args _ =>
          match argument "text" args with
          | Some (AString text) => inl [text]
          | _ => inr "text must be a string"
          end).

(** A service that proposes the same three invocations whenever it is
    asked (a good one, one of an unregistered tool, one with a wrong
    argument), a budget of three steps, and executions that complete in
    the reverse of the order proposed. *)
Definition three_calls : list Invocation :=
  [ Invoke "echo" [("text", AString "galangal")];
    Invoke "search_web" [("query", AString "thai curry")];
    Invoke "echo" [("text", AInt 1)] ].

Definition always_calls : Config :=
  Configure {[ "echo" := echo_tool ]}
            (fun _ => tool_calls three_calls)
            3
            (fun calls => rev (seq 0 (length calls))).

(** Only the retrieval tool, over an index that was loaded and is empty;
    the service searches the index first and answers when it has seen the
    outcome. *)
Definition any_chunk (text chunk : string) : bool := true.

Definition searches_then_answers (request : ModelRequest) : ModelResponse :=
  match ask_transcript request with
  | [] => tool_calls [Invoke retrieval_name
                        [("query", AString (ask_instruction request))]]
  | _ => final_answer "No knowledge was found."
  end.

Definition degraded : Config :=
  Configure {[ retrieval_name := retrieval_tool any_chunk (Index [] true) ]}
            searches_then_answers
            2
            (fun calls => seq 0 (length calls)).

End AgentLoop.

(* ===================================================================== *)
(** ** The cells that read the API key                                    *)
(* ===================================================================== *)

Module Environ.

#[local] Open Scope list_scope.

(** [os.environ]: the variables of the process, by name. *)
Abbreviation environ := (gmap string string).

Inductive exn : Type :=
| ValueError (message : string)
| TypeError (message : string).

(** [os.getenv(name)]: the value, or [None] when the variable is unset. *)
Definition getenv (name : string) (env : environ) : option string :=
  env !! name.

(** [os.environ[name] = value]: only a string can be stored. *)
Definition setitem (name : string) (value : option string) (env : environ)
  : environ + exn :=
  match value with
  | Some text => inl (<[name := text]> env)
  | None => inr (TypeError "str expected, not NoneType")
  end.

(** The truth value of a string or [None] in a condition: [None] and the
    empty string are false. *)
Definition truthy (value : option string) : bool :=
  match value with
  | Some text => negb (String.eqb text "")
  | None => false
  end.

Definition api_key_name : string := "OPENAI_API_KEY".

(** Cell [ea8e8125] of the knowledge notebook, after its imports:
    [load_dotenv(override=True)], then
    [os.environ["OPENAI_API_KEY"] = os.getenv("OPENAI_API_KEY")].
    [load_dotenv] belongs to a library outside the repository; it is a
    parameter, taking the [override] flag and the environment. *)
Definition set_api_key (load_dotenv : bool -> environ -> environ)
    (env : environ) : environ * option exn :=
  let loaded := load_dotenv true env in
  match setitem api_key_name (getenv api_key_name loaded) loaded with
  | inl env' => (env', None)
  | inr e => (loaded, Some e)
  end.

(** The objects cell [89d2caea] of the SQL notebook constructs. *)
Inductive object : Type :=
| OpenAIChat (id : string) (api_key : option string)
| SQLTools (db_url : string)
| Agent (model : nat) (tools : list nat) (show_tool_calls markdown : bool).

Definition db_url : string := "sqlite:///example.db".

Definition key_not_found : exn :=
  ValueError "OPENAI_API_KEY not found in .env file".

(** Cell [89d2caea]: [load_dotenv()], the key read with [os.getenv],
    [ValueError] raised [if not openai_api_key], and otherwise
    [agent = Agent(model=OpenAIChat("gpt-4o-mini", api_key=openai_api_key),
    tools=[SQLTools(db_url=db_url)], show_tool_calls=True, markdown=False)].
    Returns the environment, the objects, and the address bound to
    [agent] or the exception. *)
Definition build_sql_agent (load_dotenv : bool -> environ -> environ)
    (env : environ) (heap : list object)
  : environ * list object * (nat + exn) :=
  let loaded := load_dotenv false env in
  let openai_api_key := getenv api_key_name loaded in
  if negb (truthy openai_api_key)
  then (loaded, heap, inr key_not_found)
  else (loaded,
        heap ++ [ OpenAIChat "gpt-4o-mini" openai_api_key;
                  SQLTools db_url;
                  Agent (length heap) [S (length heap)] true false ],
        inl (S (S (length heap)))).

End Environ.

(* ===================================================================== *)
(** ** Running the setup cell on a database that is not new               *)
(* ===================================================================== *)

Module Rerun.
Import Sqlite.

#[local] Open Scope list_scope.


(** What a connection keeps of the file it was opened on: every table of
    the file is durable as it was, a durable table the file did not have
    is empty, and the connection sees every durable table. *)
Definition keeps (file : database) (k : connection) : Prop :=
  (forall name t, file !! name = Some t -> conn_durable k !! name = Some t) /\
  (forall name t, conn_durable k !! name = Some t -> file !! name = None ->
     tbl_rows t = []) /\
  (forall name, conn_db k !! name = None -> conn_durable k !! name = None).

(** A file in which customer 2 is taken and customer 1 is not. *)
Definition only_jane : database :=
  {[ "customers" :=
       Table customers_columns
         [ [VInt 2; VText "Jane Smith"; VText "jane@example.com"] ] ]}.



(** Two customers of one name, each with an order. *)
Definition namesakes : database :=
  <["orders" := Table orders_columns
                  [ [VInt 1; VInt 1; VText "Laptop"; VReal (real_literal 99999 2)];
                    [VInt 2; VInt 3; VText "Mouse"; VReal (real_literal 1999 2)] ]]>
    {[ "customers" :=
         Table customers_columns
           [ [VInt 1; VText "John Doe"; VText "john@example.com"];
             [VInt 3; VText "John Doe"; VText "doe@example.com"] ] ]}.


(** Keys of groups, each different from all the keys before it. *)
Fixpoint apart (keys : list value) : Prop :=
  match keys with
  | [] => True
  | k :: rest => Forall (fun k' => same_group k' k = false) rest /\ apart rest
  end.

End Rerun.

(* ===================================================================== *)
(** ** A framework whose ingestion fails                                  *)
(* ===================================================================== *)

Module Frameworks.
Import Notebook.

(** The PDF cannot be fetched: [load] raises, every query would be
    answered. *)
Definition fw_load_fails : framework :=
  Framework (fun _ _ => Some (Exception "HTTPError"))
            (fun _ _ _ _ => None).

End Frameworks.

(* ===================================================================== *)
(** ** Facts about the SQL notebook                                       *)
(* ===================================================================== *)

Module SqliteFacts.
Import Sqlite.

Ltac table_lookup :=
  first [ rewrite lookup_insert_eq | rewrite lookup_insert_ne by done ].

Ltac run_statements := cbn; repeat (table_lookup; cbn).

(** Writing a table over itself and over the other one, in any nesting,
    leaves the last write of each. *)
Lemma inserts_collapse (file : database) (c1 c2 c3 o1 o2 o3 o4 : table) :
  <["orders" := o4]> (<["orders" := o3]> (<["orders" := o2]>
    (<["customers" := c3]> (<["customers" := c2]>
      (<["orders" := o1]> (<["customers" := c1]> file))))))
  = <["orders" := o4]> (<["customers" := c3]> file).
Proof.
  apply map_eq. intros name.
  destruct (decide (name = "orders")) as [-> | Hno].
  - by rewrite !lookup_insert_eq.
  - rewrite !(lookup_insert_ne _ "orders") by done.
    destruct (decide (name = "customers")) as [-> | Hnc].
    + by rewrite !lookup_insert_eq.
    + by rewrite !lookup_insert_ne by done.
Qed.

(** The rows of a join are the concatenations of a left and a right row
    that agree on the two columns, and nothing else. *)
Lemma join_rows (l r joined : rowset) (lc rc : string * string) (x : row) :
  join l r lc rc = Some joined ->
  x ∈ rs_rows joined <->
  exists i j a b,
    qualified_index lc (rs_columns l) = Some i /\
    qualified_index rc (rs_columns r) = Some j /\
    a ∈ rs_rows l /\ b ∈ rs_rows r /\
    sql_eq (cell a i) (cell b j) = true /\ x = (a ++ b)%list.
Proof.
  unfold join. intros Hjoin.
  destruct (qualified_index lc _) as [i|]; [|done].
  destruct (qualified_index rc _) as [j|]; [|done].
  injection Hjoin as <-. cbn. rewrite list_elem_of_In, in_flat_map. split.
  - intros (a & Ha & Hx). apply in_flat_map in Hx as (b & Hb & Hx).
    destruct (sql_eq (cell a i) (cell b j)) eqn:Heq; [|done].
    destruct Hx as [<- | []]. exists i, j, a, b.
    by rewrite !list_elem_of_In.
  - intros (i' & j' & a & b & [= <-] & [= <-] & Ha & Hb & Heq & ->).
    exists a. split; [by apply list_elem_of_In|].
    apply in_flat_map. exists b. split; [by apply list_elem_of_In|].
    rewrite Heq. by left.
Qed.

(** On a file without the two tables the cell runs to its end and leaves
    the two fixture tables. *)
Lemma setup_on_new_file (file : database) :
  file !! "customers" = None ->
  file !! "orders" = None ->
  setup file = (with_fixture file, Finished).
Proof.
  intros Hc Ho. unfold setup, setup_statements, connect.
  cbn. rewrite Hc. cbn. rewrite lookup_insert_ne by done. rewrite Ho.
  run_statements. f_equal. apply inserts_collapse.
Qed.

Lemma has_key_one (rows : list row) (r : row) :
  r ∈ rows -> cell r 0 = VInt 1 ->
  existsb (fun r' => sql_eq (cell r' 0) (VInt 1)) rows = true.
Proof.
  intros Hin Hid. apply existsb_exists. exists r. split.
  - by apply list_elem_of_In.
  - by rewrite Hid.
Qed.

(** X2.  Whenever the customers table has the notebook's columns and
    holds a row with id 1, however it got there, the cell stops at its
    first [INSERT] with the uniqueness violation, and every table that was
    in the file is still there as it was. *)
Lemma setup_stops_at_first_insert (file : database) (t : table) (r : row) :
  file !! "customers" = Some t ->
  tbl_columns t = customers_columns ->
  r ∈ tbl_rows t -> cell r 0 = VInt 1 ->
  snd (setup file) = Raised (UniqueFailed "customers" "id") /\
  forall name t', file !! name = Some t' -> fst (setup file) !! name = Some t'.
Proof.
  intros Hc Hcols Hin Hid.
  pose proof (has_key_one _ _ Hin Hid) as Hex.
  unfold setup, setup_statements, connect. cbn. rewrite Hc. cbn.
  destruct (file !! "orders") as [o|] eqn:Ho; cbn.
  - rewrite Hc. cbn. rewrite Hcols. cbn. rewrite Hex. cbn. split; [done|].
    by intros name t' Hn.
  - rewrite lookup_insert_ne by done. rewrite Hc. cbn. rewrite Hcols. cbn.
    rewrite Hex. cbn. split; [done|].
    intros name t' Hn. rewrite lookup_insert_ne; [done|].
    intros <-. congruence.
Qed.

(** C10.  The setup cell repeats its schema but not its data.  On a file
    that has neither table, the first run finishes and leaves the fixture.
    A second run on the file so produced passes the pragma and the two
    [CREATE TABLE IF NOT EXISTS] statements without changing anything,
    and then stops at the first [INSERT] with the uniqueness violation on
    [customers.id]; it does not finish, and the file holds the same tables
    with the same rows as before, none of them twice. *)
Theorem setup_twice_unique_violation (file : database) :
  file !! "customers" = None ->
  file !! "orders" = None ->
  setup file = (with_fixture file, Finished) /\
  execute_all (take 3 setup_statements) (connect (with_fixture file))
    = (Connection (with_fixture file) true false (with_fixture file), None) /\
  setup (with_fixture file)
    = (with_fixture file, Raised (UniqueFailed "customers" "id")).
Proof.
  intros Hc Ho. split; [by apply setup_on_new_file|]. split.
  - unfold with_fixture. run_statements. reflexivity.
  - unfold setup, setup_statements, connect, with_fixture.
    run_statements. reflexivity.
Qed.

Lemma setup_twice_unique_violation_witness :
  setup ∅ = (fixture, Finished) /\
  execute_all (take 3 setup_statements) (connect fixture)
    = (Connection fixture true false fixture, None) /\
  setup fixture = (fixture, Raised (UniqueFailed "customers" "id")).
Proof.
  apply (setup_twice_unique_violation ∅); reflexivity.
Defined.



End SqliteFacts.

(* ===================================================================== *)
(** ** Facts about the knowledge notebook                                 *)
(* ===================================================================== *)

Module NotebookFacts.
Import Notebook.
#[local] Open Scope list_scope.

Ltac run_cells :=
  unfold notebook, build_agent, load_and_ask, load_knowledge, first_query,
    second_query, retry_without_markdown, try_except, get_knowledge, load,
    print_response, new, emit, raise, mbind, M_bind, mret, M_ret.

Lemma lookup_agent_after (h more : list object) (a : ref) (o : object) :
  h !! a = Some o -> (h ++ more) !! a = Some o.
Proof. intros H. by apply lookup_app_l_Some. Qed.

Lemma length_snoc {A} (l : list A) (x : A) : length (l ++ [x]) = S (length l).
Proof. rewrite length_app. cbn. apply Nat.add_1_r. Qed.

Lemma three_new {A} (l : list A) (a b c : A) :
  ((l ++ [a]) ++ [b]) ++ [c] = l ++ [a; b; c].
Proof. by rewrite <- !app_assoc. Qed.

(** The handler on its own: the notice, the three new objects, one more
    call of [print_response], whose outcome is the handler's. *)
Lemma retry_runs_once (fw : framework) (w : world) (agent : ref)
    m d i k t s md :
  heap w !! agent = Some (Agent m d i k t s md) ->
  retry_without_markdown fw agent w
  = (logged (PrintResponse (temp_agent_ref w) second_message true)
       (with_temp_agent k (logged (PrintLine retry_notice) w)),
     outcome (fw_print_response fw
                (with_temp_agent k (logged (PrintLine retry_notice) w))
                (temp_agent_ref w) second_message true)).
Proof.
  intros Hagent. run_cells. cbn.
  rewrite (lookup_agent_after _ [OpenAIChat model_id] _ _ Hagent). cbn.
  unfold with_temp_agent, temp_agent_ref, logged. cbn.
  by rewrite !length_snoc, three_new.
Qed.

Lemma second_query_cases (fw : framework) (w : world) (agent : ref) :
  second_query fw agent w
  = match fw_print_response fw w agent second_message true with
    | Some (Exception _) =>
        retry_without_markdown fw agent
          (logged (PrintResponse agent second_message true) w)
    | other => (logged (PrintResponse agent second_message true) w,
                outcome other)
    end.
Proof.
  unfold second_query, try_except, print_response.
  by destruct (fw_print_response fw w agent second_message true) as [[c|c]|].
Qed.

(** C2, as the cell has it.  When [print_response] raises an [Exception]
    for the second query on the markdown agent, the cell does not let it
    out: it prints the notice, builds one new agent with markdown off (and
    the knowledge base of the first agent), and sends the whole query to
    it once more.  Nothing else is called, and the cell ends as that one
    retry ends: with its answer when it returns, with its exception when
    it raises. *)
Theorem retry_once_without_markdown
    (fw : framework) (w : world) (agent : ref) (cls : string)
    m d i k t s md :
  heap w !! agent = Some (Agent m d i k t s md) ->
  fw_print_response fw w agent second_message true = Some (Exception cls) ->
  let w1 := with_temp_agent k (logged (PrintLine retry_notice)
              (logged (PrintResponse agent second_message true) w)) in
  second_query fw agent w
    = (logged (PrintResponse (temp_agent_ref w) second_message true) w1,
       outcome (fw_print_response fw w1 (temp_agent_ref w) second_message true))
  /\ heap w1 !! temp_agent_ref w
     = Some (Agent (length (heap w)) description_text instruction_lines k
                   [S (length (heap w))] true false)
  /\ log (fst (second_query fw agent w))
     = log w ++ [ PrintResponse agent second_message true;
                  PrintLine retry_notice;
                  PrintResponse (temp_agent_ref w) second_message true ].
Proof.
  intros Hagent Hraise w1.
  assert (Hrun : second_query fw agent w
    = (logged (PrintResponse (temp_agent_ref w) second_message true) w1,
       outcome (fw_print_response fw w1 (temp_agent_ref w) second_message true))).
  { rewrite second_query_cases, Hraise.
    by rewrite (retry_runs_once fw _ agent m d i k t s md). }
  split; [exact Hrun|]. split.
  - unfold w1, with_temp_agent, temp_agent_ref, logged. cbn.
    rewrite lookup_app_r by lia.
    by replace (S (S (length (heap w))) - length (heap w)) with 2 by lia.
  - rewrite Hrun. unfold w1, with_temp_agent, logged. cbn.
    by rewrite <- !app_assoc.
Qed.

Lemma retry_once_without_markdown_witness :
  second_query fw_markdown_fails agent_ref built
  = (logged (PrintResponse 8 second_message true)
       (with_temp_agent (Some 3) (logged (PrintLine retry_notice)
          (logged (PrintResponse agent_ref second_message true) built))),
     inl tt).
Proof.
  exact (proj1 (retry_once_without_markdown fw_markdown_fails built agent_ref
                  "OutputFormatError" 0 description_text instruction_lines
                  (Some 3) [4] true true eq_refl eq_refl)).
Defined.

(** C2, as the specification states it, fails: markdown rendering of the second
    answer raises, the cell sends the query again from the start on the
    new agent (two calls of [print_response] with the second message), the
    service is unreachable by then, and the cell ends with that
    exception instead of an answer. *)
Lemma retry_can_raise :
  fw_print_response fw_markdown_then_down
    (logged (PrintResponse agent_ref first_message true)
       (logged (LoadKnowledge 3) built))
    agent_ref second_message true
  = Some (Exception "OutputFormatError")
  /\ snd (notebook fw_markdown_then_down)
     = inr (Exception "APIConnectionError")
  /\ asks second_message (log (fst (notebook fw_markdown_then_down)))
     = [ PrintResponse agent_ref second_message true;
         PrintResponse 8 second_message true ].
Proof. repeat split; reflexivity. Qed.

(** C6, as the specification states it, fails: with the service unreachable the
    first query raises, no [try] is around it, and the notebook ends with
    the exception, not with a value. *)
Lemma first_query_failure_uncaught :
  notebook fw_down
  = (logged (PrintResponse agent_ref first_message true)
       (logged (LoadKnowledge 3) built),
     inr (Exception "APIConnectionError")).
Proof. reflexivity. Qed.

(** C6, as the cells have it.  A query that fails reaches the caller as
    the exception the framework raised.  An exception of the first query
    leaves the cell at once, before the second query is sent.  Of the
    second query's first attempt only an [Exception] is caught, and it is
    answered by the retry; any other exception, and any exception of the
    retry, leaves the cell.  The cell ends normally only if the first
    query returned and the last attempt of the second query returned. *)
Theorem failures_surface_as_exceptions
    (fw : framework) (w : world) (agent : ref) m d i k t s md :
  heap w !! agent = Some (Agent m d i k t s md) ->
  let w1 := logged (PrintResponse agent first_message true) w in
  let w2 := with_temp_agent k (logged (PrintLine retry_notice)
              (logged (PrintResponse agent second_message true) w1)) in
  let first := fw_print_response fw w agent first_message true in
  let second := fw_print_response fw w1 agent second_message true in
  let again := fw_print_response fw w2 (temp_agent_ref w) second_message true in
  let ended := (first_query fw agent ≫= fun _ => second_query fw agent) w in
  (forall e, first = Some e -> ended = (w1, inr e)) /\
  (forall c, first = None -> second = Some (BaseException c) ->
     snd ended = inr (BaseException c)) /\
  (forall c e, first = None -> second = Some (Exception c) ->
     again = Some e -> snd ended = inr e) /\
  (snd ended = inl tt ->
     first = None /\
     (second = None \/ exists c, second = Some (Exception c) /\ again = None)).
Proof.
  intros Hagent w1 w2 first second again ended.
  assert (Hended : ended
    = match first with
      | Some e => (w1, inr e)
      | None => second_query fw agent w1
      end).
  { unfold ended, first_query, print_response, mbind, M_bind.
    fold w1. fold first. by destruct first. }
  assert (Hsecond : snd (second_query fw agent w1)
    = match second with
      | Some (Exception _) => outcome again
      | other => outcome other
      end).
  { subst second again. rewrite second_query_cases.
    destruct (fw_print_response fw w1 agent second_message true)
      as [[c|c]|]; try reflexivity.
    by rewrite (retry_runs_once fw
                  (logged (PrintResponse agent second_message true) w1)
                  agent m d i k t s md Hagent). }
  clearbody first second again ended. subst ended.
  repeat split.
  - by intros e ->.
  - intros c -> Hs. by rewrite Hsecond, Hs.
  - intros c e -> Hs Ha. by rewrite Hsecond, Hs, Ha.
  - by destruct first.
  - destruct first as [e|]; [done|]. rewrite Hsecond in H.
    destruct second as [[c|c]|]; [|done|by left].
    right. exists c. split; [done|]. by destruct again.
Qed.

Lemma failures_surface_as_exceptions_witness :
  (first_query fw_down agent_ref ≫= fun _ => second_query fw_down agent_ref)
    built
  = (logged (PrintResponse agent_ref first_message true) built,
     inr (Exception "APIConnectionError")).
Proof.
  exact (proj1 (failures_surface_as_exceptions fw_down built agent_ref
                  0 description_text instruction_lines (Some 3) [4] true true
                  eq_refl)
               (Exception "APIConnectionError") eq_refl).
Defined.

Ltac which_call H :=
  apply list_elem_of_In in H; cbn in H;
  repeat (destruct H as [H | H]; [try discriminate H; injection H as <- <- <- |]);
  try contradiction.

(** C9.  Whenever the notebook calls [print_response] on another agent
    than [agent], that agent is the fallback: built with a model of the
    same id, the same description, instructions, tools and tool-call
    visibility, with markdown off where [agent] has it on, and with
    [agent.knowledge] itself as its knowledge base, the same object.  The
    knowledge base is loaded exactly once in the whole run, as the first
    thing the cell does, and only one knowledge base object exists: the
    recovery neither builds nor loads another. *)
Theorem fallback_agent_shares_knowledge
    (fw : framework) (a : ref) (message : string) (stream : bool) :
  PrintResponse a message stream ∈ log (fst (notebook fw)) ->
  a <> agent_ref ->
  let w := fst (notebook fw) in
  fallback_of (heap w) agent_ref a = true /\
  (exists kb,
     knowledge_of (heap w) agent_ref = Some kb /\
     knowledge_of (heap w) a = Some kb /\
     loads (log w) = [LoadKnowledge kb] /\
     head (log w) = Some (LoadKnowledge kb)) /\
  length (List.filter is_knowledge_base (heap w)) = 1.
Proof.
  intros Hcall Hother w. subst w. revert Hcall.
  unfold notebook. run_cells. cbn.
  destruct (fw_load fw _ _) as [e0|]; cbn;
    [intros H; which_call H; by destruct Hother|].
  destruct (fw_print_response fw _ _ first_message true) as [e1|]; cbn;
    [intros H; which_call H; by destruct Hother|].
  destruct (fw_print_response fw _ _ second_message true)
    as [[c|c]|]; cbn;
    intros H; which_call H; try (by destruct Hother).
  repeat split. exists 3. repeat split.
Qed.

Lemma fallback_agent_shares_knowledge_witness :
  fallback_of (heap (fst (notebook fw_markdown_fails))) agent_ref 8 = true.
Proof.
  refine (proj1 (fallback_agent_shares_knowledge fw_markdown_fails 8
                   second_message true _ _)).
  - apply list_elem_of_In. vm_compute. tauto.
  - discriminate.
Defined.

End NotebookFacts.

(* ===================================================================== *)
(** ** Facts about the agent loop of the specification                    *)
(* ===================================================================== *)

Module AgentLoopFacts.
Import AgentLoop.
#[local] Open Scope nat_scope.
#[local] Open Scope list_scope.

(** *** Results by position *)

Section ByPosition.
Context {A : Type}.

Lemma tagged_with_elem (i : nat) (x : A) (done : list (nat * A)) :
  tagged_with i done = Some x -> (i, x) ∈ done.
Proof.
  induction done as [|[j y] rest IH]; cbn; [done|].
  destruct (Nat.eqb_spec i j) as [-> | Hne].
  - intros [= ->]. left.
  - intros H. right. by apply IH.
Qed.

Lemma tagged_with_absent (i : nat) (done : list (nat * A)) :
  i ∉ done.*1 -> tagged_with i done = None.
Proof.
  induction done as [|[j y] rest IH]; cbn; [done|].
  intros Hnot. apply not_elem_of_cons in Hnot as [Hne Hrest].
  destruct (Nat.eqb_spec i j); [done | by apply IH].
Qed.

(** With every position tagged once, the order of the list does not
    matter for what is found at a position. *)
Lemma tagged_with_permutation (done done' : list (nat * A)) (i : nat) :
  done ≡ₚ done' -> NoDup done.*1 -> tagged_with i done = tagged_with i done'.
Proof.
  induction 1 as [| [j x] l l' Hperm IH | [j x] [k y] l | l l' l'' H1 IH1 H2 IH2];
    cbn; intros Hnodup.
  - done.
  - apply NoDup_cons in Hnodup as [_ Hl]. rewrite IH by done. done.
  - apply NoDup_cons in Hnodup as [Hjk _]. cbn in Hjk.
    destruct (Nat.eqb_spec i k) as [Hik | ?], (Nat.eqb_spec i j) as [Hij | ?];
      try done.
    subst. destruct Hjk. left.
  - rewrite IH1 by done. apply IH2.
    by rewrite <- H1.
Qed.

Lemma in_proposal_order_permutation (n : nat) (done done' : list (nat * A)) :
  done ≡ₚ done' -> NoDup done.*1 ->
  in_proposal_order n done = in_proposal_order n done'.
Proof.
  intros Hperm Hnodup. unfold in_proposal_order.
  apply list_omap_ext. apply Forall2_same_length_lookup. split; [done|].
  intros i a b Ha Hb. assert (a = b) as -> by congruence.
  by apply tagged_with_permutation.
Qed.

End ByPosition.

Section Loop.
Variable c : Config.
Variable instruction : string.

(** The executions of the invocations from position [j] on, in proposal
    order. *)
Lemma executions_in_order (calls : list Invocation) (j n : nat) :
  j + n = length calls ->
  omap (fun i => (fun call => (i, result_turn c call)) <$> calls !! i) (seq j n)
  = zip (seq j n) (map (result_turn c) (drop j calls)).
Proof.
  revert j. induction n as [|n IH]; intros j Hlen; cbn; [done|].
  destruct (lookup_lt_is_Some_2 calls j ltac:(lia)) as [call Hcall].
  rewrite Hcall. cbn. rewrite (drop_S _ _ _ Hcall). cbn.
  f_equal. apply IH. lia.
Qed.

Lemma in_order_by_position {A} (l : list A) (j : nat) :
  omap (fun i => tagged_with i (zip (seq j (length l)) l)) (seq j (length l))
  = l.
Proof.
  revert j. induction l as [|x l IH]; intros j; cbn; [done|].
  rewrite Nat.eqb_refl. cbn. f_equal.
  etransitivity; [|apply (IH (S j))]. apply list_omap_ext.
  apply Forall2_same_length_lookup. split; [done|].
  intros i a b Ha Hb. assert (a = b) as -> by congruence.
  apply lookup_seq in Hb as [-> _].
  destruct (Nat.eqb_spec (S j + i) j); [lia | done].
Qed.

Lemma observe_in_order (calls : list Invocation) :
  completion_order c calls ≡ₚ seq 0 (length calls) ->
  observe c calls = map (result_turn c) calls.
Proof.
  intros Hperm. unfold observe, completed_executions.
  pose proof (executions_in_order calls 0 (length calls) eq_refl) as Hexec.
  rewrite drop_0 in Hexec.
  rewrite (in_proposal_order_permutation _ _
             (zip (seq 0 (length calls)) (map (result_turn c) calls))).
  - unfold in_proposal_order.
    pose proof (in_order_by_position (map (result_turn c) calls) 0) as H.
    by rewrite length_map in H.
  - rewrite <- Hexec. by apply omap_Permutation.
  - rewrite Hperm, Hexec. rewrite fst_zip.
    + apply NoDup_seq.
    + by rewrite length_seq, length_map.
Qed.

(** *** Transitions *)

Lemma observe_results (calls : list Invocation) :
  Forall (fun t => exists call out, t = ToolResultTurn call out)
         (observe c calls).
Proof.
  apply Forall_forall. intros t Ht.
  apply list_elem_of_omap in Ht as (i & _ & Hi).
  apply tagged_with_elem in Hi.
  apply list_elem_of_omap in Hi as (k & _ & Hk).
  destruct (calls !! k) as [call|]; [|done].
  injection Hk as <- <-. by eexists _, _.
Qed.

Lemma observe_no_final (calls : list Invocation) : no_final (observe c calls).
Proof.
  eapply Forall_impl; [apply observe_results|].
  by intros t (call & out & ->).
Qed.

Lemma observe_no_proposal (calls : list Invocation) :
  List.filter is_proposal (observe c calls) = [].
Proof.
  pose proof (observe_results calls) as H.
  induction H as [|t l (call & out & ->) _ IH]; [done|]. by cbn.
Qed.

Ltac step_cases Hstep :=
  unfold step in Hstep;
  match type of Hstep with
  | context [state ?r] => destruct (state r) eqn:Hstate
  end; try discriminate Hstep;
  [ match type of Hstep with
    | context [Nat.leb ?a ?b] => destruct (Nat.leb_spec a b) as [Hbudget | Hbudget]
    end;
    [ injection Hstep as <-
    | match type of Hstep with
      | context [service ?c ?q] => destruct (service c q) as [text | calls |] eqn:Hservice
      end; injection Hstep as <- ]
  | injection Hstep as <- ].

Lemma step_appends (r r' : Run) :
  step c instruction r = Some r' ->
  exists more, transcript r' = transcript r ++ more.
Proof.
  intros Hstep. step_cases Hstep; cbn; eauto.
  all: exists []; by rewrite app_nil_r.
Qed.

Lemma well_formed_no_final (r : Run) :
  well_formed r -> state r <> completed -> no_final (transcript r).
Proof.
  unfold well_formed. destruct (state r); try done. by intros [H _].
Qed.

Lemma step_well_formed (r r' : Run) :
  well_formed r -> step c instruction r = Some r' -> well_formed r'.
Proof.
  intros Hwf Hstep.
  assert (Hnf : state r <> completed -> no_final (transcript r))
    by apply well_formed_no_final, Hwf.
  step_cases Hstep; unfold well_formed; cbn.
  - split; [|by eauto]. apply Hnf. congruence.
  - exists (transcript r), text. split; [done|]. apply Hnf. congruence.
  - apply Forall_app. split; [apply Hnf; congruence|]. by repeat constructor.
  - split; [|by eauto]. apply Hnf. congruence.
  - apply Forall_app. split; [apply Hnf; congruence|]. apply observe_no_final.
Qed.

Lemma drive_invariant (P : Run -> Prop) :
  (forall r r', P r -> step c instruction r = Some r' -> P r') ->
  forall fuel r, P r -> P (drive c instruction fuel r).
Proof.
  intros Hstep. induction fuel as [|fuel IH]; intros r Hr; cbn; [done|].
  destruct (step c instruction r) as [r'|] eqn:Hr'; [|done].
  apply IH. by eapply Hstep.
Qed.

Lemma drive_add (n m : nat) (r : Run) :
  drive c instruction (n + m) r
  = drive c instruction m (drive c instruction n r).
Proof.
  revert r. induction n as [|n IH]; intros r; cbn; [done|].
  destruct (step c instruction r) as [r'|] eqn:Hr'; [apply IH|].
  destruct m; cbn; [done|]. by rewrite Hr'.
Qed.

Lemma drive_prefix (fuel : nat) (r : Run) :
  transcript r `prefix_of` transcript (drive c instruction fuel r).
Proof.
  revert r. induction fuel as [|fuel IH]; intros r; cbn; [done|].
  destruct (step c instruction r) as [r'|] eqn:Hr'; [|done].
  destruct (step_appends _ _ Hr') as [more Hmore].
  etransitivity; [|apply IH]. rewrite Hmore. by apply prefix_app_r.
Qed.

Lemma drive_stays (fuel : nat) (r : Run) :
  step c instruction r = None -> drive c instruction fuel r = r.
Proof. intros H. destruct fuel; cbn; [done|]. by rewrite H. Qed.

Lemma start_well_formed : well_formed start.
Proof. by constructor. Qed.

Lemma reached_well_formed (n : nat) : well_formed (drive c instruction n start).
Proof.
  apply drive_invariant; [apply step_well_formed | apply start_well_formed].
Qed.

Lemma no_final_lookup (turns : Transcript) (i : nat) (text : string) :
  no_final turns -> turns !! i = Some (FinalAnswerTurn text) -> False.
Proof.
  intros Hnf Hi. eapply Forall_lookup_1 in Hnf; [|exact Hi]. discriminate Hnf.
Qed.

(** C1.  Take the run after any number [n] of transitions and again after
    [m] more.  The earlier transcript is a prefix of the later one: turns
    are only added at the end, none is changed, dropped or moved.  The run
    is [completed] exactly when its last turn is a final answer; a final
    answer never stands anywhere but last, so the run is completed at once
    when one is appended; and a completed run does not change any more. *)
Theorem transcript_append_only (n m : nat) :
  let r := drive c instruction n start in
  let r' := drive c instruction (n + m) start in
  transcript r `prefix_of` transcript r' /\
  (state r = completed
   <-> exists text, last (transcript r) = Some (FinalAnswerTurn text)) /\
  (forall i text, transcript r !! i = Some (FinalAnswerTurn text) ->
     S i = length (transcript r) /\ state r = completed) /\
  (state r = completed -> r' = r).
Proof.
  intros r r'. subst r'. rewrite drive_add. fold r.
  pose proof (reached_well_formed n) as Hwf. fold r in Hwf.
  split; [apply drive_prefix|].
  unfold well_formed in Hwf. repeat split.
  - intros Hdone. rewrite Hdone in Hwf.
    destruct Hwf as (before & text & -> & _). exists text. apply last_snoc.
  - intros [text Hlast]. apply last_Some in Hlast as [before Hbefore].
    destruct (state r) eqn:Hstate; try done;
      [| | destruct Hwf as [Hwf _]];
      rewrite Hbefore in Hwf; apply Forall_app in Hwf as [_ Hwf];
      by inversion Hwf.
  - destruct (state r) eqn:Hstate;
      try (exfalso; by eapply no_final_lookup);
      [| exfalso; destruct Hwf as [Hwf _]; by eapply no_final_lookup].
    destruct Hwf as (before & text' & Htr & Hnf). rewrite Htr in H |- *.
    rewrite length_app. cbn.
    apply lookup_app_Some in H as [H | [Hlen H]].
    + exfalso. by eapply no_final_lookup.
    + apply list_lookup_singleton_Some in H as [H _]. lia.
  - destruct (state r) eqn:Hstate;
      try (exfalso; by eapply no_final_lookup);
      [done | exfalso; destruct Hwf as [Hwf _]; by eapply no_final_lookup].
  - intros Hdone. apply drive_stays. unfold step. by rewrite Hdone.
Qed.

(** *** Termination *)

Lemma step_uses_a_transition (r r' : Run) :
  step c instruction r = Some r' ->
  transitions_left c r' < transitions_left c r.
Proof.
  intros Hstep. step_cases Hstep; unfold transitions_left; cbn;
    rewrite ?Hstate; lia.
Qed.

Lemma drive_reaches_the_end (fuel : nat) (r : Run) :
  transitions_left c r <= fuel ->
  step c instruction (drive c instruction fuel r) = None.
Proof.
  revert r. induction fuel as [|fuel IH]; intros r Hleft; cbn.
  - unfold transitions_left in Hleft. unfold step.
    destruct (state r); try done; lia.
  - destruct (step c instruction r) as [r'|] eqn:Hr'; [|done].
    apply IH. apply step_uses_a_transition in Hr'. lia.
Qed.

Lemma final_run_ended :
  step c instruction (final_run c instruction) = None.
Proof.
  apply drive_reaches_the_end. unfold transitions_left, enough_fuel. cbn. lia.
Qed.

Lemma ended_state (r : Run) :
  step c instruction r = None -> state r = completed \/ state r = failed.
Proof.
  unfold step. destruct (state r); auto.
  - destruct (Nat.leb _ _); [done|]. by destruct (service _ _).
  - done.
Qed.

Lemma final_run_well_formed : well_formed (final_run c instruction).
Proof. apply reached_well_formed. Qed.

(** [run] returns for every configuration and instruction, and what it
    returns is a final answer or a failure of one of the two loop-level
    kinds. *)
Lemma run_returns :
  exists result,
    run c instruction = Some result /\
    forall k so_far, result = Failure k so_far ->
      k = StepBudgetExceeded \/ k = UpstreamUnavailable.
Proof.
  pose proof final_run_well_formed as Hwf.
  destruct (ended_state _ final_run_ended) as [Hstate | Hstate];
    unfold run, result_of, well_formed in *; rewrite Hstate in *.
  - destruct Hwf as (before & text & -> & _). rewrite last_snoc.
    eexists. split; [done|]. by intros ? ? [=].
  - destruct Hwf as (_ & k & -> & Hk).
    eexists. split; [done|]. by intros ? ? [= <- _].
Qed.

(** *** A service that only proposes tool calls *)

Lemma step_only_proposals (r r' : Run) :
  (forall request, exists calls, service c request = tool_calls calls) ->
  only_proposals c r -> step c instruction r = Some r' -> only_proposals c r'.
Proof.
  intros Hcalls (Hle & Hnot & Hfail & Hwait & Hcount) Hstep.
  step_cases Hstep; unfold only_proposals; cbn;
    try (destruct (Hcalls (Ask instruction (transcript r) (schemas c)))
           as [calls' Hcalls']; congruence).
  - repeat split; try done; lia.
  - rewrite List.filter_app, length_app. cbn.
    repeat split; try done; lia.
  - specialize (Hwait eq_refl).
    rewrite List.filter_app, length_app, observe_no_proposal. cbn.
    repeat split; try done; lia.
Qed.

(** C4.  With a step budget of [N] and a service that proposes tool calls
    whenever it is asked, the run comes to an end, failed, after exactly
    [N] steps: [N] proposals were made and observed, and [run] returns the
    failure [StepBudgetExceeded] with the transcript accumulated so
    far. *)
Theorem only_tool_calls_exhaust_budget :
  (forall request, exists calls, service c request = tool_calls calls) ->
  let r := final_run c instruction in
  step c instruction r = None /\
  state r = failed /\
  steps r = max_steps c /\
  length (List.filter is_proposal (transcript r)) = max_steps c /\
  run c instruction = Some (Failure StepBudgetExceeded (transcript r)).
Proof.
  intros Hcalls r.
  assert (Hinv : only_proposals c r).
  { unfold r, final_run. apply (drive_invariant (only_proposals c)).
    - intros ? ?. by apply step_only_proposals.
    - unfold only_proposals. cbn. repeat split; try done. lia. }
  destruct Hinv as (Hle & Hnot & Hfail & _ & Hcount).
  pose proof final_run_ended as Hend. fold r in Hend.
  destruct (ended_state _ Hend) as [Hstate | Hstate]; [done|].
  destruct (Hfail Hstate) as [Hkind Hsteps].
  rewrite Hstate in Hcount. repeat split; try done; [lia|].
  unfold run, result_of. fold r. by rewrite Hstate, Hkind.
Qed.

(** C5.  Whatever order the executions of a step complete in, the
    tool-result turns appended for the step are those of its invocations
    in the order in which they were proposed; so the transcript after the
    step, which is what the service is shown next, is fixed by the
    proposal alone. *)
Theorem tool_results_in_proposal_order (calls : list Invocation) (r : Run) :
  (forall proposed,
     completion_order c proposed ≡ₚ seq 0 (length proposed)) ->
  observe c calls = map (result_turn c) calls /\
  (state r = awaiting_tool_result ->
   step c instruction r
   = Some (MkRun (transcript r ++ map (result_turn c) (in_flight r))
                 pending (S (steps r)) [] None)).
Proof.
  intros Hperm. split; [by apply observe_in_order|].
  intros Hstate. unfold step. rewrite Hstate. by rewrite observe_in_order.
Qed.

(** *** The empty index *)

Lemma ensure_loaded_nothing (documents : list Document) (ix : KnowledgeIndex) :
  ingestion_attempted ix = false -> chunks ix = [] ->
  indexable documents = [] ->
  ensure_loaded documents ix = (EmptyIndexWarning, Index [] true).
Proof.
  intros Hnot Hnone Hdocs. unfold ensure_loaded, ingest. rewrite Hnot. cbn.
  by rewrite Hnone, Hdocs.
Qed.

Lemma answers_within_two_steps :
  2 <= max_steps c ->
  (forall request, service c request <> unavailable) ->
  (forall request, ask_transcript request <> [] ->
     exists text, service c request = final_answer text) ->
  exists text, run c instruction = Some (FinalAnswer text).
Proof.
  intros Hbudget Havailable Hanswers. unfold run, final_run.
  replace (enough_fuel c) with (3 + (2 * max_steps c - 2))
    by (unfold enough_fuel; lia).
  rewrite drive_add.
  assert (Hdone : forall r text,
            state r = completed ->
            last (transcript r) = Some (FinalAnswerTurn text) ->
            forall fuel, result_of (drive c instruction fuel r)
                         = Some (FinalAnswer text)).
  { intros r text Hstate Hlast fuel. rewrite drive_stays.
    - unfold result_of. by rewrite Hstate, Hlast.
    - unfold step. by rewrite Hstate. }
  cbn [drive]. unfold step at 1. cbn.
  destruct (Nat.leb_spec (max_steps c) 0) as [? | _]; [lia|].
  destruct (service c _) as [text | calls |] eqn:Hfirst.
  - exists text. cbn. by apply Hdone.
  - unfold step at 1. cbn.
    destruct (Nat.leb_spec (max_steps c) 1) as [? | _]; [lia|].
    match goal with
    | |- context [service c ?request] =>
        destruct (Hanswers request) as [text Htext]; [done|]; rewrite Htext
    end.
    exists text. apply Hdone; [done|]. cbn.
    by rewrite app_comm_cons, last_snoc.
  - by destruct (Havailable _ Hfirst).
Qed.

(** C3.  An index whose ingestion yields nothing (every source
    unreachable or without chunks) passes [ensure_loaded] with
    [EmptyIndexWarning], not with a failure, and asking again neither
    ingests again nor changes the verdict.  A run that has only the
    retrieval tool over this index registered still returns: a search of
    the empty index is answered with an empty result, not an error; the
    run ends with a final answer or with one of the two loop-level
    failures; and with a service that is reachable and answers once it has
    seen the outcome of its search, it ends with a final answer. *)
Theorem empty_index_degraded_mode
    (relevant : string -> string -> bool)
    (documents : list Document) (ix : KnowledgeIndex) :
  ingestion_attempted ix = false ->
  chunks ix = [] ->
  indexable documents = [] ->
  registry c
  = {[ retrieval_name
       := retrieval_tool relevant (snd (ensure_loaded documents ix)) ]} ->
  ensure_loaded documents ix = (EmptyIndexWarning, Index [] true) /\
  ensure_loaded documents (snd (ensure_loaded documents ix))
  = (EmptyIndexWarning, Index [] true) /\
  (forall text,
     dispatch (registry c) (Invoke retrieval_name [("query", AString text)])
     = ToolResult []) /\
  (exists result,
     run c instruction = Some result /\
     forall k so_far, result = Failure k so_far ->
       k = StepBudgetExceeded \/ k = UpstreamUnavailable) /\
  (2 <= max_steps c ->
   (forall request, service c request <> unavailable) ->
   (forall request, ask_transcript request <> [] ->
      exists text, service c request = final_answer text) ->
   exists text, run c instruction = Some (FinalAnswer text)).
Proof.
  intros Hnot Hnone Hdocs Hregistry.
  rewrite (ensure_loaded_nothing _ _ Hnot Hnone Hdocs) in *.
  cbn [snd] in Hregistry. repeat split.
  - intros text. unfold dispatch. cbn [tool_name arguments].
    by rewrite Hregistry, lookup_singleton_eq.
  - apply run_returns.
  - apply answers_within_two_steps.
Qed.

End Loop.

(** *** The theorems at work *)

Lemma only_tool_calls_exhaust_budget_witness :
  run always_calls "What is the history of Thai curry?"
  = Some (Failure StepBudgetExceeded
            (transcript (final_run always_calls
                           "What is the history of Thai curry?"))).
Proof.
  refine (proj2 (proj2 (proj2 (proj2
    (only_tool_calls_exhaust_budget always_calls _ _))))).
  intros request. by exists three_calls.
Defined.

Lemma tool_results_in_proposal_order_witness :
  completed_executions always_calls three_calls
  = [ (2, result_turn always_calls (Invoke "echo" [("text", AInt 1)]));
      (1, result_turn always_calls
            (Invoke "search_web" [("query", AString "thai curry")]));
      (0, result_turn always_calls
            (Invoke "echo" [("text", AString "galangal")])) ]
  /\ observe always_calls three_calls
     = map (result_turn always_calls) three_calls.
Proof.
  split; [reflexivity|].
  refine (proj1 (tool_results_in_proposal_order always_calls ""
                   three_calls start _)).
  intros proposed. cbn. symmetry. apply Permutation_rev.
Defined.

Lemma empty_index_degraded_mode_witness :
  exists text,
    run degraded "How do I make chicken and galangal in coconut milk soup"
    = Some (FinalAnswer text).
Proof.
  refine (proj2 (proj2 (proj2 (proj2
    (empty_index_degraded_mode degraded _ any_chunk [None; Some []]
       (Index [] false) eq_refl eq_refl eq_refl eq_refl)))) _ _ _).
  - cbn. lia.
  - intros request. cbn. unfold searches_then_answers.
    by destruct (ask_transcript request).
  - intros request Hseen. cbn. unfold searches_then_answers.
    destruct (ask_transcript request); [done|]. by eexists.
Defined.

End AgentLoopFacts.

(* ===================================================================== *)
(** ** More facts about the setup cell and the documented queries         *)
(* ===================================================================== *)

Module RerunFacts.
Import Sqlite Rerun.
#[local] Open Scope list_scope.

Lemma connect_keeps (file : database) : keeps file (connect file).
Proof.
  repeat split; cbn; [done | | done].
  intros name t Ht Hnone. congruence.
Qed.

Lemma insert_success (name : string) (cols : list string) (vals : list value)
    (k k' : connection) :
  execute (InsertInto name cols vals) k = Ok k' ->
  exists t r,
    conn_db k !! name = Some t /\
    k' = Connection (<[name := Table (tbl_columns t) (tbl_rows t ++ [r])]> (conn_db k))
                    (conn_fk k) true (conn_durable k).
Proof.
  cbn. destruct (conn_db k !! name) as [t|]; [|done].
  destruct (first_unknown _ _); [done|]. cbn.
  destruct (require _ _); [|done]. cbn.
  destruct (check_primary_key _ _ _ _ _) as [r|]; [|done]. cbn.
  destruct (if conn_fk k then _ else _); [|done]. cbn.
  intros [= <-]. by exists t, r.
Qed.

(** No statement touches what the file held when the connection was
    opened: inserts stay in the open transaction, and a table is created
    only under a name that is not taken. *)
Lemma execute_keeps (file : database) (s : statement) (k k' : connection) :
  keeps file k -> execute s k = Ok k' -> keeps file k'.
Proof.
  intros (Hfile & Hnew & Hseen) Hexec. destruct s as [on | name cols | name cols vals].
  - injection Hexec as <-. by repeat split.
  - cbn in Hexec. destruct (conn_db k !! name) as [t|] eqn:Hname.
    + injection Hexec as <-. by repeat split.
    + injection Hexec as <-. pose proof (Hseen _ Hname) as Hdurable.
      repeat split; cbn.
      * intros n t Ht. destruct (conn_txn k); [by apply Hfile|].
        rewrite lookup_insert_ne; [by apply Hfile|].
        intros <-. apply Hfile in Ht. congruence.
      * intros n t Ht Hnone. destruct (conn_txn k); [by eapply Hnew|].
        destruct (decide (name = n)) as [<- | Hne].
        -- rewrite lookup_insert_eq in Ht. by injection Ht as <-.
        -- rewrite lookup_insert_ne in Ht by done. by eapply Hnew.
      * intros n Hn. destruct (decide (name = n)) as [<- | Hne].
        -- by rewrite lookup_insert_eq in Hn.
        -- rewrite lookup_insert_ne in Hn by done.
           destruct (conn_txn k); [by apply Hseen|].
           rewrite lookup_insert_ne by done. by apply Hseen.
  - apply insert_success in Hexec as (t & r & Hname & ->).
    repeat split; cbn; [done | done |].
    intros n Hn. destruct (decide (name = n)) as [<- | Hne].
    + by rewrite lookup_insert_eq in Hn.
    + rewrite lookup_insert_ne in Hn by done. by apply Hseen.
Qed.

Lemma execute_all_keeps (file : database) (ss : list statement)
    (k : connection) :
  keeps file k -> keeps file (fst (execute_all ss k)).
Proof.
  revert k. induction ss as [|s ss IH]; intros k Hk; cbn; [done|].
  destruct (execute s k) as [k'|e] eqn:Hs; [|done].
  apply IH. by eapply execute_keeps.
Qed.

Lemma raised_setup_file (file : database) (e : db_error) :
  snd (setup file) = Raised e ->
  fst (setup file)
  = conn_durable (fst (execute_all setup_statements (connect file))).
Proof.
  unfold setup.
  by destruct (execute_all setup_statements (connect file)) as [k [e'|]].
Qed.

(** X1.  The fixture is written all or nothing.  Whenever the setup cell
    ends with an exception, on whatever database file and at whichever
    statement, every table the file held is afterwards exactly as it was
    (no fixture row was kept), and a table the cell created meanwhile is
    empty. *)
Theorem failed_setup_writes_no_row (file : database) (e : db_error) :
  snd (setup file) = Raised e ->
  (forall name t, file !! name = Some t -> fst (setup file) !! name = Some t) /\
  (forall name t, fst (setup file) !! name = Some t -> file !! name = None ->
     tbl_rows t = []).
Proof.
  intros Hraised. rewrite (raised_setup_file _ _ Hraised).
  destruct (execute_all_keeps file setup_statements (connect file)
              (connect_keeps file)) as (Hfile & Hnew & _).
  by split.
Qed.

Lemma failed_setup_writes_no_row_witness :
  setup only_jane
  = (<["orders" := Table orders_columns []]> only_jane,
     Raised (UniqueFailed "customers" "id"))
  /\ fst (setup only_jane) !! "customers" = only_jane !! "customers".
Proof.
  split; [by vm_compute|].
  rewrite (proj1 (failed_setup_writes_no_row only_jane
                    (UniqueFailed "customers" "id") eq_refl)
                 "customers" _ eq_refl).
  reflexivity.
Defined.

Lemma setup_stops_at_first_insert_witness :
  snd (setup namesakes) = Raised (UniqueFailed "customers" "id").
Proof.
  refine (proj1 (SqliteFacts.setup_stops_at_first_insert namesakes
                   (Table customers_columns
                      [ [VInt 1; VText "John Doe"; VText "john@example.com"];
                        [VInt 3; VText "John Doe"; VText "doe@example.com"] ])
                   [VInt 1; VText "John Doe"; VText "john@example.com"]
                   eq_refl eq_refl _ eq_refl)).
  left.
Defined.



(** *** Statement by statement *)










(** *** The documented queries on any database *)






Lemma apart_snoc (keys : list value) (k : value) :
  apart keys -> Forall (fun k0 => same_group k k0 = false) keys ->
  apart (keys ++ [k]).
Proof.
  induction keys as [|k0 keys IH]; cbn; [done|].
  intros [Hrest Hkeys] Hnew. apply Forall_cons in Hnew as [Hk0 Hnew].
  split; [|by apply IH]. apply Forall_app. split; [done|]. by constructor.
Qed.

Lemma add_to_group_keys (k v : value) (groups : list (value * list value)) :
  (add_to_group k v groups).*1 = groups.*1 \/
  ((add_to_group k v groups).*1 = groups.*1 ++ [k] /\
   Forall (fun k0 => same_group k k0 = false) groups.*1).
Proof.
  induction groups as [|[k0 vs] groups IH]; cbn.
  - right. by split.
  - destruct (same_group k k0) eqn:Hsame; cbn; [by left|].
    destruct IH as [-> | [-> Hnew]]; [by left|].
    right. split; [done|]. by constructor.
Qed.

Lemma add_to_group_apart (k v : value) (groups : list (value * list value)) :
  apart groups.*1 -> apart (add_to_group k v groups).*1.
Proof.
  intros Hgroups.
  destruct (add_to_group_keys k v groups) as [-> | [-> Hnew]]; [done|].
  by apply apart_snoc.
Qed.

Lemma grouped_apart (rows : list row) (i j : nat)
    (groups : list (value * list value)) :
  apart groups.*1 ->
  apart (fold_left (fun gs a => add_to_group (cell a i) (cell a j) gs)
                   rows groups).*1.
Proof.
  revert groups. induction rows as [|a rows IH]; intros groups Hgroups; cbn;
    [done|].
  apply IH. by apply add_to_group_apart.
Qed.

Lemma apart_lookup (keys : list value) (i j : nat) (ki kj : value) :
  apart keys -> i < j -> keys !! i = Some ki -> keys !! j = Some kj ->
  same_group kj ki = false.
Proof.
  revert i j. induction keys as [|k keys IH]; intros i j Hkeys Hlt Hi Hj;
    [done|].
  destruct Hkeys as [Hk Hrest]. destruct j as [|j]; [lia|]. cbn in Hj.
  destruct i as [|i]; cbn in Hi.
  - injection Hi as <-. eapply Forall_lookup_1 in Hk; [|exact Hj]. done.
  - apply (IH i j); [done | lia | done | done].
Qed.

(** X6.  The aggregation the notebook documents for "total amount spent"
    groups by the customer's name: on every database, no two rows of its
    result carry the same name.  Customers who share a name therefore
    share one row and one total. *)
Theorem one_total_per_name (db : database) (groups : list (value * value))
    (i j : nat) (ki kj ti tj : value) :
  total_spent db = Some groups ->
  groups !! i = Some (ki, ti) ->
  groups !! j = Some (kj, tj) ->
  i < j ->
  same_group kj ki = false.
Proof.
  unfold total_spent, group_sum. intros Htotal Hi Hj Hlt.
  destruct (from_table db "customers" "c") as [c|]; [|done].
  destruct (from_table db "orders" "o") as [o|]; [|done].
  cbn in Htotal. destruct (join c o _ _) as [joined|]; [|done].
  cbn in Htotal.
  destruct (qualified_index ("c", "name") _) as [n|]; [|done].
  destruct (qualified_index ("o", "amount") _) as [a|]; [|done].
  injection Htotal as <-.
  apply (apart_lookup
           (fold_left (fun gs r => add_to_group (cell r n) (cell r a) gs)
                      (rs_rows joined) []).*1 i j); [| done | |].
  - by apply grouped_apart.
  - rewrite list_lookup_fmap. rewrite list_lookup_fmap in Hi.
    destruct (_ !! i) as [[k vs]|]; [|done]. by injection Hi as <- _.
  - rewrite list_lookup_fmap. rewrite list_lookup_fmap in Hj.
    destruct (_ !! j) as [[k vs]|]; [|done]. by injection Hj as <- _.
Qed.

Lemma one_total_per_name_witness :
  same_group (VText "Jane Smith") (VText "John Doe") = false
  /\ total_spent namesakes
     = Some [ (VText "John Doe", VReal (real_literal 101998 2)) ].
Proof.
  split; [|by vm_compute].
  refine (one_total_per_name fixture _ 0 1 _ _ _ _ eq_refl eq_refl eq_refl _).
  lia.
Defined.

End RerunFacts.

(* ===================================================================== *)
(** ** Facts about the cells that read the API key                        *)
(* ===================================================================== *)

Module EnvironFacts.
Import Environ.
#[local] Open Scope list_scope.

(** X7.  The first cell of the knowledge notebook never changes the
    environment it gets from [load_dotenv]: storing the key back under its
    own name is a no-op when the key is set, also when it is empty, and
    raises [TypeError] when it is not set.  The cell raises exactly when
    the key is unset; an empty key passes unnoticed. *)
Theorem set_api_key_changes_nothing
    (load_dotenv : bool -> environ -> environ) (env : environ) :
  let loaded := load_dotenv true env in
  fst (set_api_key load_dotenv env) = loaded /\
  (snd (set_api_key load_dotenv env) = None
   <-> is_Some (getenv api_key_name loaded)) /\
  (getenv api_key_name loaded = None ->
   snd (set_api_key load_dotenv env)
   = Some (TypeError "str expected, not NoneType")) /\
  (getenv api_key_name loaded = Some "" ->
   snd (set_api_key load_dotenv env) = None).
Proof.
  intros loaded. unfold set_api_key, getenv. fold loaded.
  destruct (loaded !! api_key_name) as [key|] eqn:Hkey; cbn.
  - rewrite insert_id by done. repeat split; try done; by eexists.
  - repeat split; try done; by intros [key Hnone].
Qed.

(** X8.  The agent of the SQL notebook is never built without a key.
    When, after [load_dotenv], the key is unset or empty, the cell raises
    [ValueError] and constructs nothing; otherwise it constructs exactly
    three objects, the model carrying that non-empty key, the SQL tools on
    [sqlite:///example.db], and the agent over the two with tool calls
    shown and markdown off.  The cell does not change the environment. *)
Theorem sql_agent_needs_a_key
    (load_dotenv : bool -> environ -> environ) (env : environ)
    (heap : list object) :
  let loaded := load_dotenv false env in
  let built := build_sql_agent load_dotenv env heap in
  fst (fst built) = loaded /\
  (forall e, snd built = inr e ->
     e = key_not_found /\ snd (fst built) = heap /\
     (getenv api_key_name loaded = None \/
      getenv api_key_name loaded = Some "")) /\
  (forall agent, snd built = inl agent ->
     exists key,
       getenv api_key_name loaded = Some key /\ key <> "" /\
       snd (fst built)
       = heap ++ [ OpenAIChat "gpt-4o-mini" (Some key);
                   SQLTools db_url;
                   Agent (length heap) [S (length heap)] true false ] /\
       snd (fst built) !! agent
       = Some (Agent (length heap) [S (length heap)] true false)).
Proof.
  intros loaded built. subst built. unfold build_sql_agent. fold loaded.
  destruct (getenv api_key_name loaded) as [key|] eqn:Hkey; cbn.
  - destruct (String.eqb_spec key "") as [-> | Hne]; cbn.
    + split; [done|]. split.
      * intros e [= <-]. repeat split; try done. by right.
      * by intros agent [=].
    + split; [done|]. split.
      * by intros e [=].
      * intros agent [= <-]. exists key. repeat split; try done.
        rewrite lookup_app_r by lia.
        by replace (S (S (length heap)) - length heap) with 2 by lia.
  - split; [done|]. split.
    + intros e [= <-]. repeat split; try done. by left.
    + by intros agent [=].
Qed.

End EnvironFacts.

(* ===================================================================== *)
(** ** More facts about the cell that loads and asks                      *)
(* ===================================================================== *)

Module CellFacts.
Import Notebook.
#[local] Open Scope list_scope.

(** Where the cell can stop, on an agent with knowledge base [k]: after
    the load, after the first query, after the second query, or after the
    retry. *)
Lemma load_and_ask_ends (fw : framework) (w : world) (agent : ref)
    m d i k t s md :
  heap w !! agent = Some (Agent m d i k t s md) ->
  let loaded := match k with
                | Some kb => logged (LoadKnowledge kb) w
                | None => w
                end in
  let asked := logged (PrintResponse agent second_message true)
                 (logged (PrintResponse agent first_message true) loaded) in
  let ended := fst (load_and_ask fw agent w) in
  ended = loaded \/
  ended = logged (PrintResponse agent first_message true) loaded \/
  ended = asked \/
  ended = logged (PrintResponse (temp_agent_ref w) second_message true)
            (with_temp_agent k (logged (PrintLine retry_notice) asked)).
Proof.
  intros Hagent loaded asked ended.
  assert (Hafter : forall w0, heap w0 = heap w ->
    let first := logged (PrintResponse agent first_message true) w0 in
    let both := logged (PrintResponse agent second_message true) first in
    let e := fst ((first_query fw agent ≫= fun _ => second_query fw agent) w0) in
    e = first \/ e = both \/
    e = logged (PrintResponse (temp_agent_ref w) second_message true)
          (with_temp_agent k (logged (PrintLine retry_notice) both))).
  { intros w0 Hheap first both e.
    assert (He : e = match fw_print_response fw w0 agent first_message true with
                     | Some _ => first
                     | None => fst (second_query fw agent first)
                     end).
    { unfold e, first_query, print_response, mbind, M_bind. fold first.
      by destruct (fw_print_response fw w0 agent first_message true). }
    rewrite He. clear He e.
    destruct (fw_print_response fw w0 agent first_message true); [by left|].
    rewrite NotebookFacts.second_query_cases. fold both.
    destruct (fw_print_response fw first agent second_message true)
      as [[c|c]|]; cbn [outcome fst]; [|by right; left|by right; left].
    right. right.
    rewrite (NotebookFacts.retry_runs_once fw both agent m d i k t s md)
      by (cbn; by rewrite Hheap).
    cbn [fst]. unfold temp_agent_ref. cbn [heap both first logged].
    by rewrite Hheap. }
  assert (Hended : ended
    = match k with
      | Some kb =>
          match fw_load fw w kb with
          | Some _ => loaded
          | None =>
              fst ((first_query fw agent ≫= fun _ => second_query fw agent)
                     loaded)
          end
      | None =>
          fst ((first_query fw agent ≫= fun _ => second_query fw agent) loaded)
      end).
  { unfold ended, loaded, load_and_ask, load_knowledge, load, mbind, M_bind,
      mret, M_ret, get_knowledge.
    rewrite Hagent. destruct k as [kb|]; [|done].
    rewrite Hagent. by destruct (fw_load fw w kb). }
  rewrite Hended. clear Hended ended.
  destruct k as [kb|].
  - destruct (fw_load fw w kb); [by left|]. right. by apply Hafter.
  - right. by apply Hafter.
Qed.

Lemma not_an_agent (fw : framework) (w : world) (agent : ref) :
  (forall m d i k t s md, heap w !! agent <> Some (Agent m d i k t s md)) ->
  load_and_ask fw agent w = (w, inr (Exception "AttributeError")).
Proof.
  intros Hnot.
  unfold load_and_ask, load_knowledge, mbind, M_bind, get_knowledge.
  destruct (heap w !! agent) as [[]|]; try done. by edestruct Hnot.
Qed.

(** X9.  Whatever the framework does, the cell makes one of four
    sequences of calls and no other: the load alone (left out when the
    agent has no knowledge base); then the first query; then the second
    query; then the notice and the second query once more, on the
    temporary agent.  So the knowledge base is loaded at most once and
    before any query, the first message is sent at most once, the second
    at most twice, and every query is streamed. *)
Theorem cell_call_sequences (fw : framework) (w : world) (agent : ref) :
  let loading := match knowledge_of (heap w) agent with
                 | Some kb => [LoadKnowledge kb]
                 | None => []
                 end in
  let first := PrintResponse agent first_message true in
  let second := PrintResponse agent second_message true in
  let again := PrintResponse (temp_agent_ref w) second_message true in
  exists made,
    log (fst (load_and_ask fw agent w)) = log w ++ made /\
    (made = loading \/
     made = loading ++ [first] \/
     made = loading ++ [first; second] \/
     made = loading ++ [first; second; PrintLine retry_notice; again]).
Proof.
  intros loading first second again.
  destruct (heap w !! agent) as [o|] eqn:Hagent.
  2:{ rewrite not_an_agent by (intros; congruence).
      exists []. split; [by rewrite app_nil_r|]. left.
      unfold loading, knowledge_of, deref. by rewrite Hagent. }
  destruct o as [| | | | | m d i k t s md];
    try (rewrite not_an_agent by (intros; congruence);
         exists []; split; [by rewrite app_nil_r|]; left;
         unfold loading, knowledge_of, deref; by rewrite Hagent).
  assert (Hloading : loading = match k with
                               | Some kb => [LoadKnowledge kb]
                               | None => []
                               end).
  { unfold loading, knowledge_of, deref. by rewrite Hagent. }
  rewrite Hloading. clear Hloading loading.
  destruct (load_and_ask_ends fw w agent m d i k t s md Hagent)
    as [-> | [-> | [-> | ->]]];
    destruct k as [kb|]; cbn [log logged with_temp_agent heap];
    rewrite <- ?app_assoc; cbn [app].
  - exists [LoadKnowledge kb]. split; [done|]. by left.
  - exists []. split; [by rewrite app_nil_r|]. by left.
  - eexists. split; [done|]. right. by left.
  - eexists. split; [done|]. right. by left.
  - eexists. split; [done|]. right. right. by left.
  - eexists. split; [done|]. right. right. by left.
  - eexists. split; [done|]. right. right. by right.
  - eexists. split; [done|]. right. right. by right.
Qed.

(** X10.  An exception raised while the knowledge base loads, of whatever
    class, ends the cell then and there: the load stands outside the
    [try], no query is sent and no agent is built. *)
Theorem load_failure_ends_the_cell (fw : framework) (w : world) (agent : ref)
    (kb : ref) (e : exn) m d i t s md :
  heap w !! agent = Some (Agent m d i (Some kb) t s md) ->
  fw_load fw w kb = Some e ->
  load_and_ask fw agent w = (logged (LoadKnowledge kb) w, inr e).
Proof.
  intros Hagent Hload.
  unfold load_and_ask, load_knowledge, load, mbind, M_bind, get_knowledge.
  by rewrite !Hagent, Hload.
Qed.

Lemma load_failure_ends_the_cell_witness :
  notebook Frameworks.fw_load_fails
  = (logged (LoadKnowledge 3) built, inr (Exception "HTTPError")).
Proof.
  exact (load_failure_ends_the_cell Frameworks.fw_load_fails built agent_ref
           3 (Exception "HTTPError") 0 description_text instruction_lines
           [4] true true eq_refl eq_refl).
Defined.


End CellFacts.
